(** * cb.yourl.cloud: access control of the clipboard service

    A shallow embedding of the access-control code of the service: the
    Mongoose models [Clipboard], [User], [Product] and [FamilyGroup], the
    middleware [authenticateToken] and [validateProductAccess], the route
    handlers that change or remove product members and that create, change
    or remove the share of an entry, and the routes of the clipboard and of
    the shares as they are registered behind [validateProductAccess].

    Conventions of the embedding:
    - an [ObjectId] is the string that [toString()] renders; the source
      compares ids through [toString()] everywhere;
    - a [Date] is its [valueOf()], milliseconds since the epoch; [new Date()]
      is the argument [now] of the operation that calls it;
    - an array is a [list]; [find]/[findIndex] are stdpp's [list_find], an
      assignment [a[i] = x] is [<[i:=x]> a], [push] is [++ [x]];
    - a collection is the list of its documents in natural order; [findOne]
      returns the first match and [save()] writes the document back to the
      place it was read from;
    - a route handler is a function of its request and of the collections
      it touches, to its answer and the collections afterwards.  The
      [populate] joins, the events sent to the product's room and the
      logging change neither, and are left out;
    - [save()] runs the hooks and writes: the validators of the schema are
      not run, so the documents and the values that a call writes are taken
      to be ones that the schema accepts (the enum comments on the fields),
      and a theorem about a call whose arguments a validator could refuse
      says so in its hypotheses. *)

From stdpp Require Import base decidable option list strings.
From Stdlib Require Import ZArith Lia Sorted.

Open Scope string_scope.
Open Scope list_scope.
Open Scope nat_scope.
Set Warnings "-register-all".

Definition ObjectId := string.
Definition Date := Z.
Bind Scope Z_scope with Date.

(** ** JavaScript helpers *)

(** What [levels[key]] gives, for an object literal [levels] whose values
    are numbers: the number of an own key; for a key that the literal
    inherits from [Object.prototype], the string that a comparison turns the
    inherited value into; and [undefined] for any other key. *)
Inductive Looked :=
| Own (n : nat)
| Inherited (text : string)
| Missing.

(** The text of a built-in function, as Node renders it. *)
Definition native (name : string) : string :=
  String.append "function " (String.append name "() { [native code] }").

(** The keys of [Object.prototype]: [constructor] is the function [Object],
    [__proto__] gives the prototype itself, an object, and the others are
    built-in functions of their own name. *)
Definition prototype (key : string) : option string :=
  if decide (key = "constructor") then Some (native "Object")
  else if decide (key = "__proto__") then Some "[object Object]"
  else if bool_decide
            (key ∈ ["__defineGetter__"; "__defineSetter__"; "hasOwnProperty";
                    "__lookupGetter__"; "__lookupSetter__"; "isPrototypeOf";
                    "propertyIsEnumerable"; "toString"; "valueOf"; "toLocaleString"])
  then Some (native key)
  else None.

(** [levels[key]], where [own] holds the keys and values of the literal. *)
Definition lookup (own : string → option nat) (key : string) : Looked :=
  match own key with
  | Some n => Own n
  | None =>
      match prototype key with
      | Some text => Inherited text
      | None => Missing
      end
  end.

(** [a >= b] on the results of two lookups.  Two numbers are compared as
    numbers; two inherited values are both turned into strings and compared
    as strings, by code units, [a >= b] being the negation of [a < b]; in
    every other case one side becomes NaN, be it [undefined] or a text that
    is no numeral against a number, and every comparison with NaN is
    false. *)
Definition js_ge (a b : Looked) : bool :=
  match a, b with
  | Own x, Own y => bool_decide (y ≤ x)%nat
  | Inherited s, Inherited t => negb (String.ltb s t)
  | _, _ => false
  end.

(** Truthiness of an optional string: [undefined] and [''] are falsy. *)
Definition truthy (s : option string) : bool :=
  match s with
  | Some v => bool_decide (v ≠ "")
  | None => false
  end.

(** The outcome of a promise. *)
Inductive Promise (A : Type) : Type :=
| Resolved (a : A)
| Rejected (message : string).
Arguments Resolved {A} a.
Arguments Rejected {A} message.

(** ** models/Clipboard.js *)

Module Share.
Record t := mk {
  userId : ObjectId;
  accessLevel : string;      (* enum: read, write *)
  grantedAt : Date
}.
End Share.

Module Clipboard.

Record t := mk {
  _id : ObjectId;
  content : string;
  type : string;             (* enum: text, image, file, link *)
  productId : string;
  createdBy : ObjectId;
  tags : list string;
  isPublic : bool;
  sharedWith : list Share.t;
  viewCount : Z;
  copyCount : Z;
  createdAt : Date;
  isArchived : bool
}.

Definition set_sharedWith (l : list Share.t) (e : t) : t :=
  {| _id := _id e; content := content e; type := type e;
     productId := productId e; createdBy := createdBy e; tags := tags e;
     isPublic := isPublic e; sharedWith := l; viewCount := viewCount e;
     copyCount := copyCount e; createdAt := createdAt e;
     isArchived := isArchived e |}.

(** [const levels = { read: 1, write: 2 }] *)
Definition levels (level : string) : option nat :=
  if decide (level = "read") then Some 1
  else if decide (level = "write") then Some 2
  else None.

(** [clipboardSchema.methods.userHasAccess] *)
Definition userHasAccess (this : t) (userId : ObjectId) (requiredLevel : string) : bool :=
  if isPublic this then true
  else if bool_decide (createdBy this = userId) then true
  else
    match list_find (λ share, Share.userId share = userId) (sharedWith this) with
    | Some (_, sharedAccess) =>
        js_ge (lookup levels (Share.accessLevel sharedAccess)) (lookup levels requiredLevel)
    | None => false
    end.

(** [clipboardSchema.methods.shareWithUser]; the result is the document
    handed to [save()] (the pre-save hook only reacts to changes of content,
    type, tags and isPublic, none of which is touched here). *)
Definition shareWithUser (now : Date) (this : t) (userId : ObjectId) (accessLevel : string) : t :=
  match list_find (λ share, Share.userId share = userId) (sharedWith this) with
  | Some (existingIndex, share) =>
      set_sharedWith
        (<[existingIndex := {| Share.userId := Share.userId share;
                                Share.accessLevel := accessLevel;
                                Share.grantedAt := now |}]> (sharedWith this))
        this
  | None =>
      set_sharedWith
        (sharedWith this ++ [ {| Share.userId := userId;
                                 Share.accessLevel := accessLevel;
                                 Share.grantedAt := now |} ])
        this
  end.

(** [clipboardSchema.methods.removeUserAccess] *)
Definition removeUserAccess (this : t) (userId : ObjectId) : t :=
  set_sharedWith (filter (λ share, Share.userId share ≠ userId) (sharedWith this)) this.

(** The query objects the code hands to [Clipboard.find]: the conjunction of
    the clauses of the object, [$or] being a disjunction of clauses. *)
Inductive Clause :=
| ProductIdIs (p : string)
| TypeIs (ty : string)
| TagsIn (ts : list string)
| TextSearch (s : string)
| CreatedByIs (u : ObjectId)
| IsPublicIs (b : bool)
| SharedWithUserId (u : ObjectId)
| Or (cs : list Clause).

Definition Query := list Clause.

Section Find.
(** The full-text operator [$text: { $search }] is the database's; it is a
    parameter of the embedding. *)
Variable text_match : string → t → bool.

Fixpoint clause_matches (c : Clause) (e : t) : bool :=
  match c with
  | ProductIdIs p => bool_decide (productId e = p)
  | TypeIs ty => bool_decide (type e = ty)
  | TagsIn ts => existsb (λ tag, bool_decide (tag ∈ ts)) (tags e)
  | TextSearch s => text_match s e
  | CreatedByIs u => bool_decide (createdBy e = u)
  | IsPublicIs b => bool_decide (isPublic e = b)
  | SharedWithUserId u => existsb (λ share, bool_decide (Share.userId share = u)) (sharedWith e)
  | Or cs => existsb (λ c', clause_matches c' e) cs
  end.

Definition matches (q : Query) (e : t) : bool :=
  forallb (λ c, clause_matches c e) q.

(** [Clipboard.find(query)] before any sort, skip or limit. *)
Definition find (q : Query) (collection : list t) : list t :=
  List.filter (matches q) collection.

(** [.sort({ field: 1 | -1 })]: the keys of the date and counter paths; a
    document without the path sorts as null, below every number.  The sort
    is by insertion, so documents with equal keys keep their natural order. *)
Definition sort_key (field : string) (e : t) : option Z :=
  if decide (field = "createdAt") then Some (createdAt e)
  else if decide (field = "viewCount") then Some (viewCount e)
  else if decide (field = "copyCount") then Some (copyCount e)
  else None.

Definition key_leb (a b : option Z) : bool :=
  match a, b with
  | None, _ => true
  | Some _, None => false
  | Some x, Some y => bool_decide (x ≤ y)%Z
  end.

(** [precedes desc a b]: [a] may stay in front of [b]. *)
Definition precedes (descending : bool) (a b : option Z) : bool :=
  if descending then key_leb b a else key_leb a b.

Fixpoint insert_by (field : string) (descending : bool) (e : t) (sorted : list t) : list t :=
  match sorted with
  | [] => [e]
  | x :: rest =>
      if precedes descending (sort_key field e) (sort_key field x)
      then e :: x :: rest
      else x :: insert_by field descending e rest
  end.

Definition sort (field : string) (descending : bool) (docs : list t) : list t :=
  foldr (insert_by field descending) [] docs.

(** [String.prototype.toLowerCase] on ASCII letters. *)
Definition lower_ascii (c : Ascii.ascii) : Ascii.ascii :=
  let n := Ascii.nat_of_ascii c in
  if bool_decide (65 ≤ n ≤ 90)%nat then Ascii.ascii_of_nat (n + 32) else c.

Fixpoint toLowerCase (s : string) : string :=
  match s with
  | EmptyString => EmptyString
  | String c rest => String (lower_ascii c) (toLowerCase rest)
  end.

(** The [options] argument of [findByProduct]. *)
Record Options := mkOptions {
  opt_type : option string;
  opt_tags : option (list string);
  opt_search : option string;
  opt_userId : option ObjectId
}.

(** The query object [findByProduct] builds. *)
Definition findByProduct_query (productId : string) (options : Options) : Query :=
  [ProductIdIs productId]
  ++ (if truthy (opt_type options) then [TypeIs (default "" (opt_type options))] else [])
  ++ (match opt_tags options with
      | Some (tag :: more) => [TagsIn (toLowerCase <$> (tag :: more))]
      | _ => []
      end)
  ++ (if truthy (opt_search options) then [TextSearch (default "" (opt_search options))] else [])
  ++ (if truthy (opt_userId options)
      then [Or [CreatedByIs (default "" (opt_userId options));
                IsPublicIs true;
                SharedWithUserId (default "" (opt_userId options))]]
      else []).

(** [clipboardSchema.statics.findByProduct] *)
Definition findByProduct (productId : string) (options : Options) (collection : list t) : list t :=
  sort "createdAt" true (find (findByProduct_query productId options) collection).

End Find.

End Clipboard.

(** ** Responses of the route handlers *)

Inductive Response (A : Type) : Type :=
| Json (status : nat) (payload : A)
| Error (status : nat) (error : string).
Arguments Json {A} status payload.
Arguments Error {A} status error.

Definition status_of {A} (r : Response A) : nat :=
  match r with
  | Json s _ => s
  | Error s _ => s
  end.

(** ** routes/clipboard.js *)

Module ClipboardRoutes.



End ClipboardRoutes.

(** ** models/User.js *)

Module ProductAccess.
Record t := mk {
  productId : string;
  productName : string;
  accessLevel : string;      (* enum: read, write, admin *)
  grantedAt : Date;
  grantedBy : option ObjectId;
  expiresAt : option Date;
  isActive : bool
}.

Definition set_accessLevel (level : string) (a : t) : t :=
  {| productId := productId a; productName := productName a; accessLevel := level;
     grantedAt := grantedAt a; grantedBy := grantedBy a; expiresAt := expiresAt a;
     isActive := isActive a |}.

Definition set_isActive (b : bool) (a : t) : t :=
  {| productId := productId a; productName := productName a;
     accessLevel := accessLevel a; grantedAt := grantedAt a;
     grantedBy := grantedBy a; expiresAt := expiresAt a; isActive := b |}.
End ProductAccess.

Module User.

Record t := mk {
  _id : ObjectId;
  role : string;             (* enum: admin, family, friend, user *)
  isActive : bool;
  productAccess : list ProductAccess.t
}.

Definition set_productAccess (l : list ProductAccess.t) (u : t) : t :=
  {| _id := _id u; role := role u; isActive := isActive u; productAccess := l |}.

(** [const levels = { read: 1, write: 2, admin: 3 }] *)
Definition levels (level : string) : option nat :=
  if decide (level = "read") then Some 1
  else if decide (level = "write") then Some 2
  else if decide (level = "admin") then Some 3
  else None.

(** [userSchema.methods.hasProductAccess] *)
Definition hasProductAccess (this : t) (productId : string) (accessLevel : string) : bool :=
  match list_find
          (λ p, ProductAccess.productId p = productId ∧ ProductAccess.isActive p = true)
          (productAccess this) with
  | None => false
  | Some (_, product) =>
      js_ge (lookup levels (ProductAccess.accessLevel product)) (lookup levels accessLevel)
  end.

(** [userSchema.methods.addProductAccess] *)
Definition addProductAccess (now : Date) (this : t) (productId productName accessLevel : string)
    (grantedBy : option ObjectId) (expiresAt : option Date) : t :=
  let entry :=
    {| ProductAccess.productId := productId; ProductAccess.productName := productName;
       ProductAccess.accessLevel := accessLevel; ProductAccess.grantedAt := now;
       ProductAccess.grantedBy := grantedBy; ProductAccess.expiresAt := expiresAt;
       ProductAccess.isActive := true |} in
  match list_find (λ p, ProductAccess.productId p = productId) (productAccess this) with
  | Some (existingIndex, _) =>
      set_productAccess (<[existingIndex := entry]> (productAccess this)) this
  | None => set_productAccess (productAccess this ++ [entry]) this
  end.

(** [userSchema.methods.removeProductAccess]: the entry is switched off, not
    removed. *)
Definition removeProductAccess (this : t) (productId : string) : t :=
  match list_find (λ p, ProductAccess.productId p = productId) (productAccess this) with
  | Some (existingIndex, p) =>
      set_productAccess
        (<[existingIndex := ProductAccess.set_isActive false p]> (productAccess this)) this
  | None => this
  end.

(** [User.findById] *)
Definition findById (users : list t) (id : ObjectId) : option t :=
  snd <$> list_find (λ u, _id u = id) users.

(** [userSchema.statics.findByProductAccess]: the two dotted paths are
    matched independently of each other. *)
Definition findByProductAccess (productId : string) (users : list t) : list t :=
  filter (λ u, Exists (λ a, ProductAccess.productId a = productId) (productAccess u)
               ∧ Exists (λ a, ProductAccess.isActive a = true) (productAccess u))
    users.

End User.

(** The two paths of a user document that the login methods read and
    write.  [loginAttempts] has the default 0, which is also what a document
    reads after [$unset]: unset and 0 are one state here. *)
Module Login.

Record t := mk {
  loginAttempts : Z;
  lockUntil : option Date
}.

(** Two hours. *)
Definition lock_time : Z := 2 * 60 * 60 * 1000.

(** [userSchema.methods.isLocked] *)
Definition isLocked (now : Date) (this : t) : bool :=
  match lockUntil this with
  | Some until => bool_decide (now < until)%Z
  | None => false
  end.

(** [userSchema.methods.incLoginAttempts]: the two paths as [updateOne]
    leaves them. *)
Definition incLoginAttempts (now : Date) (this : t) : t :=
  if match lockUntil this with
     | Some until => bool_decide (until < now)%Z
     | None => false
     end
  then {| loginAttempts := 1; lockUntil := None |}
  else
    {| loginAttempts := (loginAttempts this + 1)%Z;
       lockUntil :=
         if bool_decide (5 ≤ loginAttempts this + 1)%Z && negb (isLocked now this)
         then Some (now + lock_time)%Z
         else lockUntil this |}.

(** [userSchema.methods.resetLoginAttempts] *)
Definition resetLoginAttempts (this : t) : t :=
  {| loginAttempts := 0; lockUntil := None |}.

End Login.

(** ** models/Product.js *)

Module Administrator.
Record t := mk {
  userId : ObjectId;
  role : string;             (* enum: admin, moderator, support *)
  grantedAt : Date;
  grantedBy : ObjectId
}.
End Administrator.

Module Member.
Record t := mk {
  userId : ObjectId;
  accessLevel : string;      (* read, write, admin *)
  joinedAt : Date;
  updatedAt : option Date
}.
End Member.

Module Product.

(** The paths of a product document that the access check and the member
    routes read or write. *)
Record t := mk {
  productId : string;
  productName : string;
  status : string;           (* enum: active, beta, deprecated, maintenance *)
  accessLevel : string;      (* enum: public, registered, invite-only, family-only *)
  maxUsers : Z;
  currentUsers : Z;
  isUnderMaintenance : bool; (* maintenance.isUnderMaintenance *)
  lastUpdate : option Date;  (* maintenance.lastUpdate *)
  owner : ObjectId;
  administrators : list Administrator.t;
  members : list Member.t
}.

Definition set_members (l : list Member.t) (p : t) : t :=
  {| productId := productId p; productName := productName p; status := status p;
     accessLevel := accessLevel p; maxUsers := maxUsers p;
     currentUsers := currentUsers p; isUnderMaintenance := isUnderMaintenance p;
     lastUpdate := lastUpdate p; owner := owner p;
     administrators := administrators p; members := l |}.

Definition set_lastUpdate (d : option Date) (p : t) : t :=
  {| productId := productId p; productName := productName p; status := status p;
     accessLevel := accessLevel p; maxUsers := maxUsers p;
     currentUsers := currentUsers p; isUnderMaintenance := isUnderMaintenance p;
     lastUpdate := d; owner := owner p;
     administrators := administrators p; members := members p |}.

(** The object [canUserAccess] returns: [{ canAccess, level }] or
    [{ canAccess, reason }]. *)
Record Access := mkAccess {
  canAccess : bool;
  level : option string;
  reason : option string
}.

Definition allow (l : string) : Access :=
  {| canAccess := true; level := Some l; reason := None |}.
Definition deny (r : string) : Access :=
  {| canAccess := false; level := None; reason := Some r |}.

(** [productSchema.virtual('isAvailable')] *)
Definition isAvailable (this : t) : bool :=
  bool_decide (status this = "active")
  && negb (isUnderMaintenance this)
  && bool_decide (currentUsers this < maxUsers this)%Z.

(** [productSchema.methods.canUserAccess]; the second parameter [userRole]
    is never read. *)
Definition canUserAccess (this : t) (userId : ObjectId) (userRole : string) : Access :=
  if negb (isAvailable this) then deny "Product not available"
  else if bool_decide (owner this = userId) then allow "owner"
  else
    match list_find (λ a, Administrator.userId a = userId) (administrators this) with
    | Some (_, admin) => allow (Administrator.role admin)
    | None =>
        if decide (accessLevel this = "public") then allow "public"
        else if decide (accessLevel this = "registered") then allow "registered"
        else if decide (accessLevel this = "invite-only") then deny "Invite required"
        else if decide (accessLevel this = "family-only") then deny "Family access required"
        else deny "Access restricted"
    end.

(** The pre-save hook and [save()]: a modified document gets a new
    [maintenance.lastUpdate]. *)
Definition save (now : Date) (this : t) : t := set_lastUpdate (Some now) this.

Definition set_administrators (l : list Administrator.t) (p : t) : t :=
  {| productId := productId p; productName := productName p; status := status p;
     accessLevel := accessLevel p; maxUsers := maxUsers p;
     currentUsers := currentUsers p; isUnderMaintenance := isUnderMaintenance p;
     lastUpdate := lastUpdate p; owner := owner p;
     administrators := l; members := members p |}.

Definition set_currentUsers (n : Z) (p : t) : t :=
  {| productId := productId p; productName := productName p; status := status p;
     accessLevel := accessLevel p; maxUsers := maxUsers p;
     currentUsers := n; isUnderMaintenance := isUnderMaintenance p;
     lastUpdate := lastUpdate p; owner := owner p;
     administrators := administrators p; members := members p |}.


(** [productSchema.methods.addAdministrator]; [grantedBy || this.owner]. *)
Definition addAdministrator (now : Date) (this : t) (userId : ObjectId) (role : string)
    (grantedBy : option ObjectId) : t :=
  let entry :=
    {| Administrator.userId := userId; Administrator.role := role;
       Administrator.grantedAt := now;
       Administrator.grantedBy :=
         if truthy grantedBy then default "" grantedBy else owner this |} in
  match list_find (λ a, Administrator.userId a = userId) (administrators this) with
  | Some (existingIndex, _) =>
      save now (set_administrators (<[existingIndex := entry]> (administrators this)) this)
  | None => save now (set_administrators (administrators this ++ [entry]) this)
  end.

(** [productSchema.methods.removeAdministrator] *)
Definition removeAdministrator (now : Date) (this : t) (userId : ObjectId) : t :=
  save now
    (set_administrators
       (filter (λ a, Administrator.userId a ≠ userId) (administrators this)) this).

(** [productSchema.methods.incrementUserCount] *)
Definition incrementUserCount (now : Date) (this : t) : Promise t :=
  if bool_decide (currentUsers this < maxUsers this)%Z
  then Resolved (save now (set_currentUsers (currentUsers this + 1)%Z this))
  else Rejected "Maximum users reached".

(** [productSchema.methods.decrementUserCount]: the document after the
    call; at zero nothing is written. *)
Definition decrementUserCount (now : Date) (this : t) : t :=
  if bool_decide (0 < currentUsers this)%Z
  then save now (set_currentUsers (currentUsers this - 1)%Z this)
  else this.

(** [productSchema.statics.findActive] *)
Definition findActive (products : list t) : list t :=
  filter (λ p, status p = "active" ∧ isUnderMaintenance p = false) products.

End Product.

(** ** models/FamilyGroup.js *)

Module Permissions.
Record t := mk {
  canInvite : bool;
  canManageMembers : bool;
  canViewAll : bool;
  canShare : bool
}.
End Permissions.

Module FamilyMember.
Record t := mk {
  userId : ObjectId;
  role : string;             (* enum: owner, admin, member, guest *)
  joinedAt : Date;
  invitedBy : option ObjectId;
  permissions : Permissions.t
}.
End FamilyMember.

Module Invitation.
Record t := mk {
  email : string;
  invitedBy : ObjectId;
  invitedAt : Date;
  expiresAt : Date;
  role : string;             (* enum: member, guest *)
  message : string;
  status : string            (* enum: pending, accepted, declined, expired *)
}.

Definition set_status (s : string) (i : t) : t :=
  {| email := email i; invitedBy := invitedBy i; invitedAt := invitedAt i;
     expiresAt := expiresAt i; role := role i; message := message i; status := s |}.
End Invitation.

Module FamilyGroup.

Record t := mk {
  name : string;
  allowInvites : bool;       (* settings.allowInvites *)
  maxMembers : Z;            (* settings.maxMembers *)
  owner : ObjectId;
  members : list FamilyMember.t;
  pendingInvitations : list Invitation.t;
  memberCount : Z;           (* activity.memberCount *)
  lastActivity : option Date (* activity.lastActivity *)
}.

Definition set_members (l : list FamilyMember.t) (g : t) : t :=
  {| name := name g; allowInvites := allowInvites g; maxMembers := maxMembers g;
     owner := owner g; members := l; pendingInvitations := pendingInvitations g;
     memberCount := memberCount g; lastActivity := lastActivity g |}.

Definition set_pendingInvitations (l : list Invitation.t) (g : t) : t :=
  {| name := name g; allowInvites := allowInvites g; maxMembers := maxMembers g;
     owner := owner g; members := members g; pendingInvitations := l;
     memberCount := memberCount g; lastActivity := lastActivity g |}.

(** A document in use: [this] is the object the methods mutate, [stored] is
    what the collection holds, the document as of the last [save()]. *)
Record Doc := mkDoc {
  this : t;
  stored : t
}.

Definition with_this (g : t) (d : Doc) : Doc := {| this := g; stored := stored d |}.

(** A method is a function of the document in use that returns the outcome
    of its promise and the document after the call. *)
Definition Method := Doc → Promise t * Doc.

(** The pre-save hook. *)
Definition pre_save (now : Date) (g : t) : t :=
  {| name := name g; allowInvites := allowInvites g; maxMembers := maxMembers g;
     owner := owner g; members := members g;
     pendingInvitations := pendingInvitations g;
     memberCount := Z.of_nat (length (members g)); lastActivity := Some now |}.

(** [this.save()]: the pre-save hook, then the write.  The document is
    taken to pass the validators of the schema. *)
Definition save (now : Date) : Method := λ d,
  let g := pre_save now (this d) in
  (Resolved g, {| this := g; stored := g |}).

(** [familyGroupSchema.virtual('isFull')] *)
Definition isFull (g : t) : bool :=
  bool_decide (maxMembers g ≤ Z.of_nat (length (members g)))%Z.

(** [familyGroupSchema.virtual('canAcceptMembers')] *)
Definition canAcceptMembers (g : t) : bool := negb (isFull g) && allowInvites g.

(** [familyGroupSchema.methods.getDefaultPermissions] *)
Definition getDefaultPermissions (role : string) : Permissions.t :=
  if decide (role = "owner") then
    {| Permissions.canInvite := true; Permissions.canManageMembers := true;
       Permissions.canViewAll := true; Permissions.canShare := true |}
  else if decide (role = "admin") then
    {| Permissions.canInvite := true; Permissions.canManageMembers := true;
       Permissions.canViewAll := true; Permissions.canShare := true |}
  else if decide (role = "member") then
    {| Permissions.canInvite := false; Permissions.canManageMembers := false;
       Permissions.canViewAll := true; Permissions.canShare := true |}
  else if decide (role = "guest") then
    {| Permissions.canInvite := false; Permissions.canManageMembers := false;
       Permissions.canViewAll := false; Permissions.canShare := false |}
  else
    {| Permissions.canInvite := false; Permissions.canManageMembers := false;
       Permissions.canViewAll := true; Permissions.canShare := true |}.

(** [familyGroupSchema.methods.canManageMember] *)
Definition canManageMember (g : t) (userId : ObjectId) (targetMember : FamilyMember.t) : bool :=
  match list_find (λ m, FamilyMember.userId m = userId) (members g) with
  | None => false
  | Some (_, user) =>
      if decide (FamilyMember.role user = "owner") then true
      else if bool_decide (FamilyMember.role user = "admin"
                           ∧ FamilyMember.role targetMember ≠ "owner"
                           ∧ FamilyMember.role targetMember ≠ "admin")
      then true
      else false
  end.

(** [familyGroupSchema.methods.addMember] *)
Definition addMember (now : Date) (userId : ObjectId) (role : string)
    (invitedBy : option ObjectId) : Method := λ d,
  if isFull (this d) then (Rejected "Family group is full", d)
  else
    match list_find (λ m, FamilyMember.userId m = userId) (members (this d)) with
    | Some _ => (Rejected "User is already a member", d)
    | None =>
        let newMember :=
          {| FamilyMember.userId := userId; FamilyMember.role := role;
             FamilyMember.joinedAt := now; FamilyMember.invitedBy := invitedBy;
             FamilyMember.permissions := getDefaultPermissions role |} in
        save now (with_this (set_members (members (this d) ++ [newMember]) (this d)) d)
    end.

(** [familyGroupSchema.methods.removeMember] *)
Definition removeMember (now : Date) (userId removedBy : ObjectId) : Method := λ d,
  match list_find (λ m, FamilyMember.userId m = userId) (members (this d)) with
  | None => (Rejected "User is not a member", d)
  | Some (memberIndex, member) =>
      if negb (canManageMember (this d) removedBy member)
      then (Rejected "Insufficient permissions to remove member", d)
      else save now (with_this (set_members (delete memberIndex (members (this d))) (this d)) d)
  end.

(** [familyGroupSchema.methods.updateMemberRole] *)
Definition updateMemberRole (now : Date) (userId : ObjectId) (newRole : string)
    (updatedBy : ObjectId) : Method := λ d,
  match list_find (λ m, FamilyMember.userId m = userId) (members (this d)) with
  | None => (Rejected "User is not a member", d)
  | Some (memberIndex, member) =>
      if negb (canManageMember (this d) updatedBy member)
      then (Rejected "Insufficient permissions to update member", d)
      else
        let updated :=
          {| FamilyMember.userId := FamilyMember.userId member;
             FamilyMember.role := newRole;
             FamilyMember.joinedAt := FamilyMember.joinedAt member;
             FamilyMember.invitedBy := FamilyMember.invitedBy member;
             FamilyMember.permissions := getDefaultPermissions newRole |} in
        save now (with_this (set_members (<[memberIndex := updated]> (members (this d))) (this d)) d)
  end.

(** Seven days, the default life of an invitation. *)
Definition invitation_ttl : Z := 7 * 24 * 60 * 60 * 1000.

(** [familyGroupSchema.methods.inviteUser].  The search for a pending
    invitation compares the address as given; the invitation pushed is cast
    by the schema, which lower-cases its [email] and fills in [invitedAt]
    and [expiresAt] with their defaults. *)
Definition inviteUser (now : Date) (email role : string) (invitedBy : ObjectId)
    (message : string) : Method := λ d,
  if negb (canAcceptMembers (this d))
  then (Rejected "Group cannot accept new members", d)
  else
    match list_find (λ inv, Invitation.email inv = email ∧ Invitation.status inv = "pending")
            (pendingInvitations (this d)) with
    | Some _ => (Rejected "Invitation already sent to this email", d)
    | None =>
        let invitation :=
          {| Invitation.email := Clipboard.toLowerCase email;
             Invitation.invitedBy := invitedBy;
             Invitation.invitedAt := now;
             Invitation.expiresAt := (now + invitation_ttl)%Z;
             Invitation.role := role; Invitation.message := message;
             Invitation.status := "pending" |} in
        save now (with_this
                    (set_pendingInvitations (pendingInvitations (this d) ++ [invitation])
                       (this d)) d)
    end.

(** [invitation.status = s] on the invitation found at [index]. *)
Definition mark (index : nat) (invitation : Invitation.t) (s : string) (d : Doc) : Doc :=
  with_this
    (set_pendingInvitations
       (<[index := Invitation.set_status s invitation]> (pendingInvitations (this d)))
       (this d)) d.

(** [familyGroupSchema.methods.acceptInvitation] *)
Definition acceptInvitation (now : Date) (email : string) (userId : ObjectId) : Method := λ d,
  match list_find (λ inv, Invitation.email inv = email ∧ Invitation.status inv = "pending")
          (pendingInvitations (this d)) with
  | None => (Rejected "Invitation not found or already processed", d)
  | Some (index, invitation) =>
      if bool_decide (Invitation.expiresAt invitation < now)%Z then
        let '(_, d') := save now (mark index invitation "expired" d) in
        (Rejected "Invitation has expired", d')
      else
        match addMember now userId (Invitation.role invitation)
                (Some (Invitation.invitedBy invitation))
                (mark index invitation "accepted" d) with
        | (Resolved _, d') => save now d'
        | (Rejected message, d') => (Rejected message, d')
        end
  end.

(** [familyGroupSchema.methods.declineInvitation] *)
Definition declineInvitation (now : Date) (email : string) : Method := λ d,
  match list_find (λ inv, Invitation.email inv = email ∧ Invitation.status inv = "pending")
          (pendingInvitations (this d)) with
  | None => (Rejected "Invitation not found", d)
  | Some (index, invitation) => save now (mark index invitation "declined" d)
  end.

End FamilyGroup.

(** ** middleware/auth.js *)

Module Auth.

(** What [jwt.verify(token, process.env.JWT_SECRET)] does: it returns the
    decoded payload, of which the code reads [userId], or throws an error
    with a [name]. *)
Inductive Verified :=
| Decoded (userId : option ObjectId)
| Throws (name : string).

(** What the middleware does with the request: it calls [next()] with
    [req.user] set, or it answers. *)
Inductive Outcome :=
| Next (user : User.t)
| Respond (status : nat) (error : string).

(** [String.prototype.split] on a one-character separator. *)
Fixpoint split (separator : Ascii.ascii) (s : string) : list string :=
  match s with
  | EmptyString => [EmptyString]
  | String c rest =>
      if decide (c = separator) then EmptyString :: split separator rest
      else
        match split separator rest with
        | [] => [String c EmptyString]
        | word :: words => String c word :: words
        end
  end.

(** [authHeader && authHeader.split(' ')[1]] *)
Definition bearer (authHeader : option string) : option string :=
  if truthy authHeader then split (Ascii.ascii_of_nat 32) (default "" authHeader) !! 1 else authHeader.

Section Middleware.
Variable jwt_verify : string → Verified.

(** [authenticateToken]; [users] is the users collection. *)
Definition authenticateToken (authorization : option string) (users : list User.t) : Outcome :=
  let token := bearer authorization in
  if negb (truthy token) then Respond 401 "Access token required"
  else
    match jwt_verify (default "" token) with
    | Decoded userId =>
        match userId ≫= User.findById users with
        | None => Respond 401 "User not found or inactive"
        | Some user =>
            if negb (User.isActive user) then Respond 401 "User not found or inactive"
            else if bool_decide (length (User.productAccess user) = 0)
            then Respond 403 "No product access granted"
            else Next user
        end
    | Throws name =>
        if decide (name = "TokenExpiredError") then Respond 401 "Token expired"
        else if decide (name = "JsonWebTokenError") then Respond 401 "Invalid token"
        else Respond 500 "Authentication failed"
    end.

End Middleware.

(** What a role guard does with the request.  It first runs
    [authenticateToken] with a [next] that does nothing.  When that one
    answered, [req.user] is not set, reading its [role] throws, and the
    guard hands the error to [next(error)]: [faulted]. *)
Inductive Guarded :=
| Continue (user : User.t)
| Answered (status : nat) (error : string) (faulted : bool).

Definition guard (allowed : list string) (error : string) (o : Outcome) : Guarded :=
  match o with
  | Next user =>
      if bool_decide (User.role user ∈ allowed) then Continue user
      else Answered 403 error false
  | Respond status error' => Answered status error' true
  end.

(** [authenticateAdmin] *)
Definition authenticateAdmin (jwt_verify : string → Verified)
    (authorization : option string) (users : list User.t) : Guarded :=
  guard ["admin"] "Admin access required"
    (authenticateToken jwt_verify authorization users).

(** [authenticateFamilyMember] *)
Definition authenticateFamilyMember (jwt_verify : string → Verified)
    (authorization : option string) (users : list User.t) : Guarded :=
  guard ["admin"; "family"; "friend"] "Family or friend access required"
    (authenticateToken jwt_verify authorization users).

End Auth.

(** ** middleware/productAccess.js *)

Module ProductAccessMiddleware.

(** It calls [next()] with [req.userProduct] set, or it answers. *)
Inductive Outcome :=
| Next (userProduct : ProductAccess.t)
| Respond (status : nat) (error : string).

Section Validate.
(** The [_id] that the database gave each entry of [productAccess]. *)
Variable entry_id : ProductAccess.t → ObjectId.

(** [product._id.toString() === productId || product.productId === productId],
    where [productId] is [req.params.productId], [undefined] on a route
    that binds no such parameter. *)
Definition names (productId : option string) (product : ProductAccess.t) : Prop :=
  Some (entry_id product) = productId ∨ Some (ProductAccess.productId product) = productId.

(** [validateProductAccess]; [userId] is [req.user._id].  A user that is
    not found makes the reading of [productAccess] throw, which the [catch]
    answers with 500. *)
Definition validateProductAccess (productId : option string) (userId : ObjectId)
    (users : list User.t) : Outcome :=
  match User.findById users userId with
  | None => Respond 500 "Product access validation failed"
  | Some user =>
      if bool_decide (length (User.productAccess user) = 0)
      then Respond 403 "No product access granted"
      else
        match list_find (names productId) (User.productAccess user) with
        | None => Respond 403 "Access denied to this product"
        | Some (_, product) => Next product
        end
  end.

End Validate.

End ProductAccessMiddleware.

(** ** routes/products.js: the member routes *)

Module ProductRoutes.

(** The two collections the member routes touch. *)
Record Db := mkDb {
  products : list Product.t;
  users : list User.t
}.

(** The filter of [Product.findOne] in both routes: the product id, and an
    [$or] of ownership and of the two member paths.  The two paths are
    matched independently of each other, as the query language does for
    dotted paths into an array. *)
Definition manageable_by (productId : string) (currentUserId : ObjectId) (p : Product.t) : Prop :=
  Product.productId p = productId
  ∧ (Product.owner p = currentUserId
     ∨ (Exists (λ m, Member.userId m = currentUserId) (Product.members p)
        ∧ Exists (λ m, Member.accessLevel m = "admin") (Product.members p))).

#[global] Instance manageable_by_dec productId currentUserId p :
  Decision (manageable_by productId currentUserId p).
Proof. unfold manageable_by. apply _. Defined.

(** [product.members.filter(m => m.accessLevel === 'admin').length] *)
Definition admin_count (members : list Member.t) : nat :=
  length (filter (λ m, Member.accessLevel m = "admin") members).

(** [User.updateOne({ _id, 'productAccess.productId': productId },
    { $set: { 'productAccess.$.accessLevel': accessLevel } })] *)
Definition set_user_access (userId : ObjectId) (productId accessLevel : string)
    (users : list User.t) : list User.t :=
  match list_find
          (λ u, User._id u = userId
                ∧ Exists (λ a, ProductAccess.productId a = productId) (User.productAccess u))
          users with
  | None => users
  | Some (i, u) =>
      match list_find (λ a, ProductAccess.productId a = productId) (User.productAccess u) with
      | None => users
      | Some (j, a) =>
          <[i := User.set_productAccess
                   (<[j := ProductAccess.set_accessLevel accessLevel a]> (User.productAccess u))
                   u]> users
      end
  end.

(** [User.updateOne({ _id }, { $pull: { productAccess: { productId } } })] *)
Definition pull_user_access (userId : ObjectId) (productId : string)
    (users : list User.t) : list User.t :=
  match list_find (λ u, User._id u = userId) users with
  | None => users
  | Some (i, u) =>
      <[i := User.set_productAccess
               (filter (λ a, ProductAccess.productId a ≠ productId) (User.productAccess u))
               u]> users
  end.

Definition set_member_level (level : string) (now : Date) (m : Member.t) : Member.t :=
  {| Member.userId := Member.userId m; Member.accessLevel := level;
     Member.joinedAt := Member.joinedAt m; Member.updatedAt := Some now |}.

(** The body of a successful answer: its message and, for the update, the
    member as it now is. *)
Record Done := mkDone {
  message : string;
  member : option Member.t
}.

(** [router.put('/:productId/members/:userId', ...)]: [productId] and
    [userId] are the route parameters, [accessLevel] comes from the body and
    [currentUserId] is [req.user._id]. *)
Definition put_member (now : Date) (productId : string) (userId : ObjectId)
    (accessLevel : string) (currentUserId : ObjectId) (db : Db) : Response Done * Db :=
  if negb (bool_decide (accessLevel ∈ ["read"; "write"; "admin"]))
  then (Error 400 "Invalid access level", db)
  else
    match list_find (manageable_by productId currentUserId) (products db) with
    | None => (Error 404 "Product not found or access denied", db)
    | Some (slot, product) =>
        match list_find (λ m, Member.userId m = userId) (Product.members product) with
        | None => (Error 404 "Member not found", db)
        | Some (memberIndex, member) =>
            if bool_decide (accessLevel ≠ "admin")
               && bool_decide (admin_count (Product.members product) = 1)
               && bool_decide (Member.accessLevel member = "admin")
            then (Error 400 "Cannot remove the last admin from the product", db)
            else
              let updated := set_member_level accessLevel now member in
              let product' :=
                Product.save now
                  (Product.set_members
                     (<[memberIndex := updated]> (Product.members product)) product) in
              (Json 200 {| message := "Member access level updated successfully";
                           member := Some updated |},
               {| products := <[slot := product']> (products db);
                  users := set_user_access userId productId accessLevel (users db) |})
        end
    end.

(** [router.delete('/:productId/members/:userId', ...)] *)
Definition delete_member (now : Date) (productId : string) (userId : ObjectId)
    (currentUserId : ObjectId) (db : Db) : Response Done * Db :=
  match list_find (manageable_by productId currentUserId) (products db) with
  | None => (Error 404 "Product not found or access denied", db)
  | Some (slot, product) =>
      if bool_decide (Product.owner product = userId)
      then (Error 400 "Cannot remove the product owner", db)
      else
        match list_find (λ m, Member.userId m = userId) (Product.members product) with
        | None => (Error 404 "Member not found", db)
        | Some (memberIndex, member) =>
            if bool_decide (Member.accessLevel member = "admin")
               && bool_decide (admin_count (Product.members product) = 1)
            then (Error 400 "Cannot remove the last admin from the product", db)
            else
              let product' :=
                Product.save now
                  (Product.set_members (delete memberIndex (Product.members product))
                     product) in
              (Json 200 {| message := "Member removed successfully"; member := None |},
               {| products := <[slot := product']> (products db);
                  users := pull_user_access userId productId (users db) |})
        end
  end.


End ProductRoutes.

(** ** routes/shares.js: sharing an entry, changing and removing a share *)

Module ShareRoutes.

(** The two collections the share routes touch. *)
Record Db := mkDb {
  clipboards : list Clipboard.t;
  users : list User.t
}.

(** [Clipboard.findOne({ _id: entryId, productId })] *)
Definition find_entry (entryId : ObjectId) (productId : string) (db : Db)
    : option (nat * Clipboard.t) :=
  list_find (λ e, Clipboard._id e = entryId ∧ Clipboard.productId e = productId)
    (clipboards db).

(** The bodies of the successful answers. *)
Inductive Answer :=
| ShareCreated (entryId sharedWith : ObjectId) (accessLevel : string) (sharedAt : Date)
| ShareUpdated (share : Share.t)
| ShareRemoved.

(** The handler of [router.post('/', validateShareEntry,
    validateProductAccess, handler)], the function that Express calls when
    the middleware has called [next()]; the route as registered is
    [Registered.post_share] below.  Of the validators, the one on
    [accessLevel] is modelled; ids are abstract here, so the checks of their
    format are not.  The writes to [entry.activityLog] touch no path of the
    schema. *)
Definition post_share (now : Date) (entryId userId : ObjectId) (accessLevel productId : string)
    (currentUserId : ObjectId) (db : Db) : Response Answer * Db :=
  if negb (bool_decide (accessLevel ∈ ["read"; "write"])) then (Error 400 "Invalid value", db)
  else if bool_decide (userId = currentUserId)
  then (Error 400 "Cannot share with yourself", db)
  else
    match find_entry entryId productId db with
    | None => (Error 404 "Clipboard entry not found", db)
    | Some (slot, entry) =>
        if negb (Clipboard.userHasAccess entry currentUserId "write")
        then (Error 403 "Insufficient permissions to share this entry", db)
        else
          match list_find (λ u, User._id u = userId) (users db) with
          | None => (Error 404 "Target user not found", db)
          | Some (userSlot, targetUser) =>
              if negb (User.isActive targetUser)
              then (Error 400 "Target user account is not active", db)
              else
                match list_find (λ share, Share.userId share = userId)
                        (Clipboard.sharedWith entry) with
                | Some existingShare =>
                    (Error 400 "Entry is already shared with this user", db)
                | None =>
                    let entry' := Clipboard.shareWithUser now entry userId accessLevel in
                    let users' :=
                      if negb (User.hasProductAccess targetUser productId "read")
                      then <[userSlot := User.addProductAccess now targetUser productId
                                            "Shared Clipboard" "read" (Some currentUserId)
                                            None]> (users db)
                      else users db in
                    (Json 200 (ShareCreated entryId userId accessLevel now),
                     {| clipboards := <[slot := entry']> (clipboards db);
                        users := users' |})
                end
          end
    end.

(** The handler of [router.put('/:entryId/:userId', validateShareUpdate,
    validateProductAccess, handler)]; the route as registered is
    [Registered.put_share]. *)
Definition put_share (now : Date) (entryId userId : ObjectId) (accessLevel productId : string)
    (currentUserId : ObjectId) (db : Db) : Response Answer * Db :=
  if negb (bool_decide (accessLevel ∈ ["read"; "write"])) then (Error 400 "Invalid value", db)
  else
    match find_entry entryId productId db with
    | None => (Error 404 "Clipboard entry not found", db)
    | Some (slot, entry) =>
        if negb (Clipboard.userHasAccess entry currentUserId "write")
        then (Error 403 "Insufficient permissions to modify this share", db)
        else
          match list_find (λ share, Share.userId share = userId)
                  (Clipboard.sharedWith entry) with
          | None => (Error 404 "Share not found", db)
          | Some (shareIndex, share) =>
              let share' :=
                {| Share.userId := Share.userId share; Share.accessLevel := accessLevel;
                   Share.grantedAt := now |} in
              let entry' :=
                Clipboard.set_sharedWith
                  (<[shareIndex := share']> (Clipboard.sharedWith entry)) entry in
              (Json 200 (ShareUpdated share'),
               {| clipboards := <[slot := entry']> (clipboards db); users := users db |})
          end
    end.

(** The handler of [router.delete('/:entryId/:userId',
    validateProductAccess, handler)]; the route as registered is
    [Registered.delete_share]. *)
Definition delete_share (entryId userId : ObjectId) (productId : string)
    (currentUserId : ObjectId) (db : Db) : Response Answer * Db :=
  match find_entry entryId productId db with
  | None => (Error 404 "Clipboard entry not found", db)
  | Some (slot, entry) =>
      if negb (Clipboard.userHasAccess entry currentUserId "write")
      then (Error 403 "Insufficient permissions to remove this share", db)
      else
        (Json 200 ShareRemoved,
         {| clipboards := <[slot := Clipboard.removeUserAccess entry userId]> (clipboards db);
            users := users db |})
  end.

End ShareRoutes.

(** ** The routes as registered: [validateProductAccess] before the handler *)

Module Registered.
Import ProductAccessMiddleware.

Section Chain.
(** The [_id] that the database gave each entry of [productAccess]. *)
Variable entry_id : ProductAccess.t → ObjectId.

(** [router.METHOD(path, ..., validateProductAccess, handler)]: the handler
    runs only when the middleware calls [next()]; otherwise the answer is
    the middleware's and nothing is written.  [productId] is
    [req.params.productId] as the path of the route binds it, [userId] is
    [req.user._id], which [authenticateToken] has set before the router is
    entered, and the handler, which may read [req.userProduct], works on the
    collections [s]. *)
Definition behind_validateProductAccess {A S} (productId : option string) (userId : ObjectId)
    (users : list User.t) (handler : ProductAccess.t → S → Response A * S) (s : S)
    : Response A * S :=
  match validateProductAccess entry_id productId userId users with
  | Next userProduct => handler userProduct s
  | Respond status error => (Error status error, s)
  end.

(** [router.get('/', validateProductAccess, handler)], routes/clipboard.js
    line 64.  The path [/] binds no parameter, so [req.params.productId] is
    [undefined]; the product asked for travels in [req.query], which the
    middleware does not read.  The handler is an argument. *)
Definition get_clipboard {A S} (userId : ObjectId) (users : list User.t)
    (handler : ProductAccess.t → S → Response A * S) (s : S) : Response A * S :=
  behind_validateProductAccess None userId users handler s.

(** [router.post('/', validateShareEntry, validateProductAccess, handler)],
    routes/shares.js.  [validateShareEntry] only records what it finds, for
    the handler to read; the path binds no parameter. *)
Definition post_share (now : Date) (entryId userId : ObjectId) (accessLevel productId : string)
    (currentUserId : ObjectId) (db : ShareRoutes.Db)
    : Response ShareRoutes.Answer * ShareRoutes.Db :=
  behind_validateProductAccess None currentUserId (ShareRoutes.users db)
    (λ _, ShareRoutes.post_share now entryId userId accessLevel productId currentUserId) db.

(** [router.put('/:entryId/:userId', validateShareUpdate,
    validateProductAccess, handler)]: the path binds [entryId] and [userId]
    and no [productId]. *)
Definition put_share (now : Date) (entryId userId : ObjectId) (accessLevel productId : string)
    (currentUserId : ObjectId) (db : ShareRoutes.Db)
    : Response ShareRoutes.Answer * ShareRoutes.Db :=
  behind_validateProductAccess None currentUserId (ShareRoutes.users db)
    (λ _, ShareRoutes.put_share now entryId userId accessLevel productId currentUserId) db.

(** [router.delete('/:entryId/:userId', validateProductAccess, handler)] *)
Definition delete_share (entryId userId : ObjectId) (productId : string)
    (currentUserId : ObjectId) (db : ShareRoutes.Db)
    : Response ShareRoutes.Answer * ShareRoutes.Db :=
  behind_validateProductAccess None currentUserId (ShareRoutes.users db)
    (λ _, ShareRoutes.delete_share entryId userId productId currentUserId) db.

End Chain.

End Registered.

(** * Properties *)

(** ** List lemmas shared by the developments below *)

Section ListFacts.
Context {A B : Type} `{EqDecision B} (f : A → B).

Lemma length_filter_key (v : B) (l : list A) :
  length (filter (λ x, f x = v) l) = length (filter (λ y, y = v) (f <$> l)).
Proof.
  induction l as [|x l IH]; [done|].
  rewrite fmap_cons, !filter_cons.
  destruct (decide (f x = v)); simpl; by rewrite IH.
Qed.

Lemma fmap_insert_same_key (l : list A) (i : nat) (x x' : A) :
  l !! i = Some x → f x' = f x → f <$> <[i := x']> l = f <$> l.
Proof.
  intros Hi Hf. rewrite list_fmap_insert, Hf.
  apply list_insert_id. by rewrite list_lookup_fmap, Hi.
Qed.

Lemma filter_key_absent (v : B) (l : list A) :
  list_find (λ x, f x = v) l = None → filter (λ x, f x = v) l = [].
Proof.
  rewrite list_find_None. induction 1 as [|x l Hx _ IH]; [done|].
  rewrite filter_cons. by destruct (decide (f x = v)).
Qed.

Lemma list_find_key_elem_of (v : B) (l : list A) :
  v ∈ (f <$> l) → ∃ i x, list_find (λ x, f x = v) l = Some (i, x).
Proof.
  intros (x & -> & Hx)%list_elem_of_fmap.
  destruct (list_find_elem_of (λ y, f y = f x) l x Hx eq_refl) as [[i y] Hy].
  eauto.
Qed.

End ListFacts.

(** ** Clipboard entries *)

Module ClipboardFacts.
Import Clipboard.

(** The grants an entry holds for one user. *)
Definition grants_of (u : ObjectId) (e : t) : list Share.t :=
  filter (λ share, Share.userId share = u) (sharedWith e).

(** At most one [sharedWith] record per user. *)
Definition one_grant_per_user (e : t) : Prop :=
  ∀ u, length (grants_of u e) ≤ 1.

(** One share operation: who is given which level, and when. *)
Record ShareCall := mkShareCall {
  call_time : Date;
  call_userId : ObjectId;
  call_level : string
}.

(** A sequence of share operations on one entry. *)
Definition share_all (calls : list ShareCall) (e : t) : t :=
  foldl (λ e c, shareWithUser (call_time c) e (call_userId c) (call_level c)) e calls.

(** The single-record visibility rule: public, or own, or shared with the
    user. *)
Definition visible_to (u : ObjectId) (e : t) : bool :=
  isPublic e
  || bool_decide (createdBy e = u)
  || bool_decide (u ∈ (Share.userId <$> sharedWith e)).

Lemma shareWithUser_found now e u lvl i old :
  list_find (λ share, Share.userId share = u) (sharedWith e) = Some (i, old) →
  sharedWith (shareWithUser now e u lvl)
  = <[i := {| Share.userId := u; Share.accessLevel := lvl; Share.grantedAt := now |}]>
      (sharedWith e).
Proof.
  intros Hfind. unfold shareWithUser. rewrite Hfind. simpl.
  apply list_find_Some in Hfind as (_ & -> & _). done.
Qed.

Lemma shareWithUser_fresh now e u lvl :
  list_find (λ share, Share.userId share = u) (sharedWith e) = None →
  sharedWith (shareWithUser now e u lvl)
  = sharedWith e ++ [{| Share.userId := u; Share.accessLevel := lvl; Share.grantedAt := now |}].
Proof. intros Hfind. unfold shareWithUser. by rewrite Hfind. Qed.

Lemma shareWithUser_grants now e u lvl v :
  length (grants_of v (shareWithUser now e u lvl))
  = if decide (u = v)
    then Nat.max 1 (length (grants_of v e))
    else length (grants_of v e).
Proof.
  unfold grants_of.
  destruct (list_find (λ share, Share.userId share = u) (sharedWith e))
    as [[i old]|] eqn:Hfind.
  - rewrite (shareWithUser_found _ _ _ _ _ _ Hfind).
    pose proof Hfind as (Hi & Hu & _)%list_find_Some.
    rewrite !(length_filter_key Share.userId).
    rewrite (fmap_insert_same_key Share.userId _ _ old) by done.
    destruct (decide (u = v)) as [->|]; [|done].
    rewrite <- (length_filter_key Share.userId).
    assert (old ∈ filter (λ share, Share.userId share = v) (sharedWith e)) as Hin.
    { apply list_elem_of_filter. split; [done|]. by eapply list_elem_of_lookup_2. }
    destruct (filter _ (sharedWith e)); [by apply elem_of_nil in Hin|simpl; lia].
  - rewrite (shareWithUser_fresh _ _ _ _ Hfind), filter_app, length_app.
    rewrite filter_cons, filter_nil. simpl.
    destruct (decide (u = v)) as [->|].
    + rewrite (filter_key_absent Share.userId _ _ Hfind). done.
    + simpl. lia.
Qed.

Lemma shareWithUser_one_grant now e u lvl :
  one_grant_per_user e → one_grant_per_user (shareWithUser now e u lvl).
Proof.
  intros He v. rewrite shareWithUser_grants. specialize (He v).
  destruct (decide (u = v)); lia.
Qed.

Lemma userHasAccess_public e u lvl :
  isPublic e = true → userHasAccess e u lvl = true.
Proof. intros H. unfold userHasAccess. by rewrite H. Qed.

Lemma userHasAccess_creator e lvl : userHasAccess e (createdBy e) lvl = true.
Proof.
  unfold userHasAccess. destruct (isPublic e); [done|].
  by rewrite bool_decide_eq_true_2.
Qed.

(** C8. Sharing an entry with a user who already appears in its
    [sharedWith] list rewrites that user's record in place, with the new
    access level and the time of the call, and changes no other record and
    not the length of the list; and an entry that holds at most one record
    per user still does after any sequence of share operations. *)
Theorem share_again_updates_in_place :
  (∀ now e u lvl,
     u ∈ (Share.userId <$> sharedWith e) →
     ∃ i old,
       sharedWith e !! i = Some old ∧ Share.userId old = u
       ∧ length (sharedWith (shareWithUser now e u lvl)) = length (sharedWith e)
       ∧ sharedWith (shareWithUser now e u lvl) !! i
         = Some {| Share.userId := u; Share.accessLevel := lvl; Share.grantedAt := now |}
       ∧ ∀ j, j ≠ i →
           sharedWith (shareWithUser now e u lvl) !! j = sharedWith e !! j)
  ∧ (∀ calls e, one_grant_per_user e → one_grant_per_user (share_all calls e)).
Proof.
  split.
  - intros now e u lvl Hin.
    destruct (list_find_key_elem_of Share.userId u _ Hin) as (i & old & Hfind).
    pose proof Hfind as (Hi & Hu & _)%list_find_Some.
    exists i, old. rewrite (shareWithUser_found _ _ _ _ _ _ Hfind).
    split_and!; [done|done|apply length_insert| |].
    + apply list_lookup_insert_eq. by eapply lookup_lt_Some.
    + intros j Hj. by apply list_lookup_insert_ne.
  - intros calls. unfold share_all.
    induction calls as [|c calls IH]; intros e He; [done|].
    simpl. apply IH. by apply shareWithUser_one_grant.
Qed.

(** An entry a user has just created, nothing shared yet. *)
Definition new_entry : t :=
  {| _id := "e1"; content := "meeting notes"; type := "text"; productId := "P";
     createdBy := "alice"; tags := []; isPublic := false; sharedWith := [];
     viewCount := 0; copyCount := 0; createdAt := 1000; isArchived := false |}.

(** [new_entry] after it was shared with bob for reading. *)
Definition shared_entry : t := shareWithUser 2000 new_entry "bob" "read".

Example share_twice :
  sharedWith (shareWithUser 3000 shared_entry "bob" "write")
  = [{| Share.userId := "bob"; Share.accessLevel := "write"; Share.grantedAt := 3000 |}].
Proof. reflexivity. Qed.

Lemma share_again_updates_in_place_witness :
  (∃ i old,
     sharedWith shared_entry !! i = Some old ∧ Share.userId old = "bob"
     ∧ length (sharedWith (shareWithUser 3000 shared_entry "bob" "write"))
       = length (sharedWith shared_entry)
     ∧ sharedWith (shareWithUser 3000 shared_entry "bob" "write") !! i
       = Some {| Share.userId := "bob"; Share.accessLevel := "write";
                 Share.grantedAt := 3000 |}
     ∧ ∀ j, j ≠ i →
         sharedWith (shareWithUser 3000 shared_entry "bob" "write") !! j
         = sharedWith shared_entry !! j)
  ∧ one_grant_per_user
      (share_all [mkShareCall 2000 "bob" "read"; mkShareCall 3000 "bob" "write";
                  mkShareCall 4000 "carol" "read"] new_entry).
Proof.
  split.
  - apply (proj1 share_again_updates_in_place 3000%Z shared_entry "bob" "write").
    vm_compute. apply list_elem_of_here.
  - apply (proj2 share_again_updates_in_place).
    intros u. vm_compute. lia.
Defined.

(** A public entry of alice's, shared with nobody. *)
Definition public_entry : t :=
  {| _id := "e2"; content := "wifi password"; type := "text"; productId := "P";
     createdBy := "alice"; tags := []; isPublic := true; sharedWith := [];
     viewCount := 0; copyCount := 0; createdAt := 1000; isArchived := false |}.

(** What the code keeps of the rule for public entries: a public entry is
    readable by every principal, whether or not [sharedWith] names them. *)
Lemma public_entry_readable e u :
  isPublic e = true → userHasAccess e u "read" = true.
Proof. apply userHasAccess_public. Qed.

(** C3. On a public entry [userHasAccess] answers true for the level
    [write] too, to a principal who is neither the creator nor named in
    [sharedWith]: the early return on [isPublic] never looks at the
    required level. *)
Theorem public_entry_grants_write_to_stranger :
  isPublic public_entry = true
  ∧ createdBy public_entry ≠ "mallory"
  ∧ ("mallory" ∉ Share.userId <$> sharedWith public_entry)
  ∧ userHasAccess public_entry "mallory" "read" = true
  ∧ userHasAccess public_entry "mallory" "write" = true.
Proof.
  split_and!; [done|done| |done|done].
  simpl. apply not_elem_of_nil.
Qed.

End ClipboardFacts.

(** ** The share routes *)

Module ShareRoutesFacts.
Import Clipboard ClipboardFacts ShareRoutes.

Lemma removeUserAccess_one_grant e u :
  one_grant_per_user e → one_grant_per_user (removeUserAccess e u).
Proof.
  intros He v. specialize (He v). unfold grants_of in *. simpl.
  etrans; [|exact He]. clear He.
  induction (sharedWith e) as [|s l IH]; [done|].
  rewrite !filter_cons.
  destruct (decide (Share.userId s ≠ u)), (decide (Share.userId s = v));
    rewrite ?filter_cons; try destruct (decide (Share.userId s = v)); simpl; try done; lia.
Qed.

(** Every entry of the collection holds at most one grant per user. *)
Definition grants_are_unique (db : Db) : Prop :=
  Forall one_grant_per_user (clipboards db).

(** Step over a guard of a handler that answers early and writes nothing. *)
Ltac early_answer :=
  match goal with
  | |- context [if ?guard then (Error _ _, _) else _] => destruct guard; [by eauto|]
  end.

(** [POST /api/shares] refuses to share an entry a second time with the
    same user: it never reaches [shareWithUser] then, and nothing is
    written. *)
Lemma post_share_already_shared now entryId userId accessLevel productId currentUserId db
    slot entry :
  find_entry entryId productId db = Some (slot, entry) →
  userId ∈ (Share.userId <$> sharedWith entry) →
  ∃ status error,
    post_share now entryId userId accessLevel productId currentUserId db
    = (Error status error, db).
Proof.
  intros Hentry Hin. unfold post_share. do 2 early_answer.
  rewrite Hentry. early_answer.
  destruct (list_find (λ u, User._id u = userId) (users db)) as [[userSlot target]|];
    [|by eauto].
  early_answer.
  destruct (list_find_key_elem_of Share.userId userId _ Hin) as (i & old & ->).
  by eauto.
Qed.

(** The three routes keep the grants of every entry unique. *)
Lemma share_routes_keep_grants_unique db :
  grants_are_unique db →
  (∀ now entryId userId accessLevel productId currentUserId,
     grants_are_unique
       (snd (post_share now entryId userId accessLevel productId currentUserId db)))
  ∧ (∀ now entryId userId accessLevel productId currentUserId,
       grants_are_unique
         (snd (put_share now entryId userId accessLevel productId currentUserId db)))
  ∧ (∀ entryId userId productId currentUserId,
       grants_are_unique (snd (delete_share entryId userId productId currentUserId db))).
Proof.
  intros Hdb.
  assert (∀ slot entry, clipboards db !! slot = Some entry → one_grant_per_user entry)
    as Hentry.
  { intros slot entry Hslot. by eapply (Forall_lookup_1 _ _ _ _ Hdb). }
  split_and!.
  - intros now entryId userId accessLevel productId currentUserId. unfold post_share.
    do 2 early_answer.
    destruct (find_entry entryId productId db) as [[slot entry]|] eqn:Hfind; [|done].
    apply list_find_Some in Hfind as (Hslot & _ & _). early_answer.
    destruct (list_find (λ u, User._id u = userId) (users db)) as [[userSlot target]|];
      [|done].
    early_answer.
    destruct (list_find (λ share, Share.userId share = userId) (sharedWith entry));
      [done|].
    apply Forall_insert; [done|]. apply shareWithUser_one_grant. by eapply Hentry.
  - intros now entryId userId accessLevel productId currentUserId. unfold put_share.
    early_answer.
    destruct (find_entry entryId productId db) as [[slot entry]|] eqn:Hfind; [|done].
    apply list_find_Some in Hfind as (Hslot & _ & _). early_answer.
    destruct (list_find (λ share, Share.userId share = userId) (sharedWith entry))
      as [[shareIndex share]|] eqn:Hshare; [|done].
    apply Forall_insert; [done|].
    pose proof (shareWithUser_one_grant now entry userId accessLevel (Hentry _ _ Hslot))
      as Hone.
    unfold shareWithUser in Hone. by rewrite Hshare in Hone.
  - intros entryId userId productId currentUserId. unfold delete_share.
    destruct (find_entry entryId productId db) as [[slot entry]|] eqn:Hfind; [|done].
    apply list_find_Some in Hfind as (Hslot & _ & _). early_answer.
    apply Forall_insert; [done|]. apply removeUserAccess_one_grant. by eapply Hentry.
Qed.

(** alice's new entry in a collection of its own, with alice and bob as
    users of product P. *)
Definition shelf : Db :=
  {| clipboards := [new_entry];
     users :=
       [User.addProductAccess 100 (User.mk "alice" "user" true []) "P" "Shared board"
          "admin" None None;
        User.mk "bob" "user" true []] |}.

Example share_then_share_again :
  let first := post_share 2000 "e1" "bob" "read" "P" "alice" shelf in
  let second := post_share 3000 "e1" "bob" "write" "P" "alice" (snd first) in
  fst first = Json 200 (ShareCreated "e1" "bob" "read" 2000)
  ∧ sharedWith <$> clipboards (snd first) = [[Share.mk "bob" "read" 2000]]
  ∧ (λ u, User.hasProductAccess u "P" "read") <$> users (snd first) = [true; true]
  ∧ second = (Error 400 "Entry is already shared with this user", snd first).
Proof. split_and!; reflexivity. Qed.

Example change_share :
  sharedWith
    <$> clipboards
          (snd (put_share 3000 "e1" "bob" "write" "P" "alice"
                  (snd (post_share 2000 "e1" "bob" "read" "P" "alice" shelf))))
  = [[Share.mk "bob" "write" 3000]].
Proof. reflexivity. Qed.

End ShareRoutesFacts.

(** ** Listing the entries of a product *)

Module ListingFacts.
Import Clipboard ClipboardFacts.

Lemma elem_of_insert_by field descending e x sorted :
  x ∈ insert_by field descending e sorted ↔ x = e ∨ x ∈ sorted.
Proof.
  induction sorted as [|y sorted IH]; simpl.
  - rewrite list_elem_of_singleton, elem_of_nil. tauto.
  - destruct (precedes _ _ _).
    + by rewrite elem_of_cons.
    + rewrite !elem_of_cons, IH. tauto.
Qed.

Lemma elem_of_sort field descending x docs :
  x ∈ sort field descending docs ↔ x ∈ docs.
Proof.
  unfold sort. induction docs as [|y docs IH]; simpl; [done|].
  by rewrite elem_of_insert_by, elem_of_cons, IH.
Qed.

Lemma visibility_clause_matches text_match u e :
  clause_matches text_match (Or [CreatedByIs u; IsPublicIs true; SharedWithUserId u]) e
  = visible_to u e.
Proof.
  unfold visible_to. simpl. rewrite orb_false_r.
  assert (existsb (λ share, bool_decide (Share.userId share = u)) (sharedWith e)
          = bool_decide (u ∈ (Share.userId <$> sharedWith e))) as ->.
  { induction (sharedWith e) as [|s l IH]; [done|].
    rewrite fmap_cons. cbn [existsb]. rewrite IH.
    apply eq_true_iff_eq. rewrite orb_true_iff, !bool_decide_eq_true, elem_of_cons.
    split; (intros [Hs|Hs]; [left; by symmetry|by right]). }
  destruct (isPublic e), (bool_decide (createdBy e = u)); done.
Qed.

(** The model's own listing, [findByProduct], does filter by visibility when
    it is given the user: every document it returns is public, the user's
    own, or shared with the user. *)
Lemma findByProduct_visible text_match productId options collection u e :
  opt_userId options = Some u → u ≠ "" →
  e ∈ findByProduct text_match productId options collection →
  visible_to u e = true.
Proof.
  intros Hu Hne. unfold findByProduct, find.
  rewrite elem_of_sort, list_elem_of_In, filter_In.
  intros [_ Hm]. unfold matches, findByProduct_query in Hm.
  rewrite !forallb_app in Hm.
  apply andb_prop in Hm as [_ Hm]. apply andb_prop in Hm as [_ Hm].
  apply andb_prop in Hm as [_ Hm]. apply andb_prop in Hm as [_ Hm].
  rewrite Hu in Hm. simpl in Hm. rewrite bool_decide_eq_true_2 in Hm by done.
  cbn [forallb] in Hm. rewrite andb_true_r in Hm.
  by rewrite visibility_clause_matches in Hm.
Qed.

Import ProductAccessMiddleware.

(** On a route whose path binds no [productId], [validateProductAccess]
    never calls [next()]: it answers with one of its three errors. *)
Lemma unbound_productId_is_refused entry_id userId users :
  ∃ status error,
    validateProductAccess entry_id None userId users = Respond status error
    ∧ (status = 403 ∨ status = 500).
Proof.
  unfold validateProductAccess.
  destruct (User.findById users userId) as [user|]; [|by eauto].
  case_bool_decide; [by eauto|].
  destruct (list_find (names entry_id None) (User.productAccess user))
    as [[i a]|] eqn:Hfind; [|by eauto].
  apply list_find_Some in Hfind as (_ & [Hid|Hid] & _); discriminate.
Qed.

Lemma unbound_route_is_refused {A S} entry_id userId users
    (handler : ProductAccess.t → S → Response A * S) (s : S) :
  ∃ status error,
    Registered.behind_validateProductAccess entry_id None userId users handler s
    = (Error status error, s)
    ∧ (status = 403 ∨ status = 500).
Proof.
  unfold Registered.behind_validateProductAccess.
  destruct (unbound_productId_is_refused entry_id userId users)
    as (status & error & -> & Hstatus).
  by eauto.
Qed.


Definition bob_options : Options :=
  {| opt_type := None; opt_tags := None; opt_search := None; opt_userId := Some "bob" |}.

(** bob, a user with read access to product P. *)
Definition bob : User.t :=
  User.addProductAccess 100 (User.mk "bob" "user" true []) "P" "Shared board" "read"
    None None.




Example bob_is_refused :
  Registered.get_clipboard (λ _, "a1") "bob" [bob]
    (λ _ collection, (Json 200 collection, collection)) [new_entry]
  = (Error 403 "Access denied to this product", [new_entry]).
Proof. reflexivity. Qed.

End ListingFacts.

(** ** Products *)

Module ProductFacts.
Import Product.

Lemma isAvailable_false_iff p :
  isAvailable p = false
  ↔ status p ≠ "active" ∨ isUnderMaintenance p = true ∨ (maxUsers p ≤ currentUsers p)%Z.
Proof.
  unfold isAvailable.
  rewrite !andb_false_iff, negb_false_iff, !bool_decide_eq_false. intuition lia.
Qed.

(** C10. A product that is not available, because its status is not
    [active], or it is under maintenance, or [currentUsers] has reached
    [maxUsers], denies every user with the reason [Product not available]:
    the owner and the administrators too, since availability is looked at
    before ownership and before the administrators list. *)
Theorem unavailable_product_denies_everyone p userId userRole :
  status p ≠ "active" ∨ isUnderMaintenance p = true ∨ (maxUsers p ≤ currentUsers p)%Z →
  canUserAccess p userId userRole
  = {| canAccess := false; level := None; reason := Some "Product not available" |}.
Proof.
  intros H%isAvailable_false_iff. unfold canUserAccess. by rewrite H.
Qed.

(** alice's product, taken down for maintenance; bob is one of its
    administrators. *)
Definition product_in_maintenance : t :=
  {| productId := "P"; productName := "Shared board"; status := "active";
     accessLevel := "public"; maxUsers := 10; currentUsers := 2;
     isUnderMaintenance := true; lastUpdate := None; owner := "alice";
     administrators :=
       [{| Administrator.userId := "bob"; Administrator.role := "admin";
           Administrator.grantedAt := 500; Administrator.grantedBy := "alice" |}];
     members := [] |}.

Lemma unavailable_product_denies_everyone_witness :
  canUserAccess product_in_maintenance "alice" "user" = deny "Product not available"
  ∧ canUserAccess product_in_maintenance "bob" "user" = deny "Product not available".
Proof.
  split.
  - apply (unavailable_product_denies_everyone product_in_maintenance "alice" "user").
    right. left. reflexivity.
  - apply (unavailable_product_denies_everyone product_in_maintenance "bob" "user").
    right. left. reflexivity.
Defined.

(** C2 as first stated fails on a product that is not available: its owner
    is denied. *)
Lemma owner_denied_when_unavailable :
  owner product_in_maintenance = "alice"
  ∧ canUserAccess product_in_maintenance "alice" "user"
    = {| canAccess := false; level := None; reason := Some "Product not available" |}.
Proof. split; reflexivity. Qed.

(** C2. The owner of an available product is allowed at level [owner], and
    the creator of a clipboard entry has access at every requested level. *)
Theorem owner_and_creator_are_allowed :
  (∀ p userRole,
     isAvailable p = true →
     canUserAccess p (owner p) userRole
     = {| canAccess := true; level := Some "owner"; reason := None |})
  ∧ (∀ e requiredLevel,
       Clipboard.userHasAccess e (Clipboard.createdBy e) requiredLevel = true).
Proof.
  split.
  - intros p userRole H. unfold canUserAccess. rewrite H. simpl.
    by rewrite bool_decide_eq_true_2.
  - apply ClipboardFacts.userHasAccess_creator.
Qed.

Definition open_product : t :=
  {| productId := "Q"; productName := "Family notes"; status := "active";
     accessLevel := "invite-only"; maxUsers := 10; currentUsers := 2;
     isUnderMaintenance := false; lastUpdate := None; owner := "alice";
     administrators := []; members := [] |}.

Lemma owner_and_creator_are_allowed_witness :
  canUserAccess open_product "alice" "user" = allow "owner"
  ∧ Clipboard.userHasAccess ClipboardFacts.new_entry "alice" "write" = true.
Proof.
  split.
  - apply (proj1 owner_and_creator_are_allowed open_product "user"). reflexivity.
  - apply (proj2 owner_and_creator_are_allowed ClipboardFacts.new_entry "write").
Defined.

End ProductFacts.

(** ** Users and their product access *)

Module UserFacts.
Import User.

(** The specification's reading of a grant: the entry is for the product, active,
    not expired at [now], and its level ranks at least as high as the
    requested one. *)
Definition not_expired (now : Date) (a : ProductAccess.t) : Prop :=
  match ProductAccess.expiresAt a with
  | Some t => (now ≤ t)%Z
  | None => True
  end.

(** ranks: read 1, write 2, admin 3 *)
Definition rank (level : string) : option nat :=
  if decide (level = "read") then Some 1
  else if decide (level = "write") then Some 2
  else if decide (level = "admin") then Some 3
  else None.

Definition rank_at_least (granted requested : string) : Prop :=
  ∃ g r, rank granted = Some g ∧ rank requested = Some r ∧ r ≤ g.

Definition active_for (productId : string) (a : ProductAccess.t) : Prop :=
  ProductAccess.productId a = productId ∧ ProductAccess.isActive a = true.

(** The data-model invariant: at most one active entry per product. *)
Definition one_active_entry (u : t) (productId : string) : Prop :=
  length (filter (active_for productId) (productAccess u)) ≤ 1.

(** The three levels of the table. *)
Definition known_levels : list string := ["read"; "write"; "admin"].

Lemma known_level_rank level : level ∈ known_levels → is_Some (rank level).
Proof.
  unfold known_levels. rewrite !elem_of_cons, elem_of_nil.
  intros [->|[->|[->|[]]]]; by eexists.
Qed.

(** As soon as one of the two levels is in the table, the comparison of the
    code is the comparison of the ranks. *)
Lemma js_ge_rank granted requested :
  granted ∈ known_levels ∨ requested ∈ known_levels →
  js_ge (lookup levels granted) (lookup levels requested) = true
  ↔ rank_at_least granted requested.
Proof.
  intros Hknown. unfold rank_at_least, lookup. change levels with rank.
  destruct (rank granted) as [g|] eqn:Hg, (rank requested) as [r|] eqn:Hr.
  - simpl. rewrite bool_decide_eq_true. split.
    + intros ?. by exists g, r.
    + intros (g' & r' & [= <-] & [= <-] & ?). done.
  - split; [by destruct (prototype requested)|]. by intros (? & ? & _ & ? & _).
  - split; [by destruct (prototype granted)|]. by intros (? & ? & ? & _).
  - destruct Hknown as [[? Hsome]%known_level_rank|[? Hsome]%known_level_rank];
      congruence.
Qed.

(** What the code decides on: the first active entry for the product. *)
Lemma hasProductAccess_first_active u productId level :
  level ∈ known_levels →
  hasProductAccess u productId level = true
  ↔ ∃ i a, list_find (active_for productId) (productAccess u) = Some (i, a)
           ∧ rank_at_least (ProductAccess.accessLevel a) level.
Proof.
  intros Hlevel. unfold hasProductAccess. fold (active_for productId).
  destruct (list_find _ _) as [[i a]|].
  - rewrite js_ge_rank by by right. split; [by exists i, a|].
    by intros (? & ? & [= <- <-] & ?).
  - split; [done|]. by intros (? & ? & ? & _).
Qed.

Lemma filter_at_most_one {A} (P : A → Prop) `{∀ x, Decision (P x)} (l : list A) x y :
  length (filter P l) ≤ 1 → x ∈ l → P x → y ∈ l → P y → x = y.
Proof.
  intros Hlen Hx HPx Hy HPy.
  assert (x ∈ filter P l) as Hx' by by apply list_elem_of_filter.
  assert (y ∈ filter P l) as Hy' by by apply list_elem_of_filter.
  destruct (filter P l) as [|z [|z' rest]]; simpl in Hlen; [|  |lia].
  - by apply elem_of_nil in Hx'.
  - apply list_elem_of_singleton in Hx', Hy'. congruence.
Qed.

(** Access as the specification describes it, expiry included. *)
Definition specified_access (now : Date) (u : t) (productId level : string) : Prop :=
  ∃ a, a ∈ productAccess u
       ∧ active_for productId a
       ∧ not_expired now a
       ∧ rank_at_least (ProductAccess.accessLevel a) level.

(** carol was given read access to P until time 1000. *)
Definition carol : t :=
  addProductAccess 10 (mk "carol" "user" true []) "P" "Shared board" "read"
    (Some "alice") (Some 1000%Z).

(** C6 as first stated fails: at time 2000 carol's only grant has expired,
    and [hasProductAccess] still answers true. *)
Lemma expired_grant_still_gives_access :
  productAccess carol
  = [{| ProductAccess.productId := "P"; ProductAccess.productName := "Shared board";
        ProductAccess.accessLevel := "read"; ProductAccess.grantedAt := 10;
        ProductAccess.grantedBy := Some "alice"; ProductAccess.expiresAt := Some 1000%Z;
        ProductAccess.isActive := true |}]
  ∧ hasProductAccess carol "P" "read" = true
  ∧ ¬ specified_access 2000 carol "P" "read".
Proof.
  split_and!; [reflexivity|reflexivity|].
  intros (a & Ha & _ & Hexp & _).
  apply list_elem_of_singleton in Ha. subst a.
  unfold not_expired in Hexp. simpl in Hexp. lia.
Qed.

(** C6. For a user who holds at most one active entry per product, and a
    requested level that is one of read, write and admin,
    [hasProductAccess] answers true exactly when the [productAccess] list
    has an active entry for the product whose level ranks at least as high
    as the requested level, under read 1 < write 2 < admin 3.  The entry's
    [expiresAt] plays no part. *)
Theorem hasProductAccess_iff_active_grant u productId level :
  level ∈ ["read"; "write"; "admin"] →
  one_active_entry u productId →
  hasProductAccess u productId level = true
  ↔ ∃ a, a ∈ productAccess u
         ∧ ProductAccess.productId a = productId
         ∧ ProductAccess.isActive a = true
         ∧ rank_at_least (ProductAccess.accessLevel a) level.
Proof.
  intros Hlevel Hone. rewrite hasProductAccess_first_active by done. split.
  - intros (i & a & (Hi & [Hp Ha] & _)%list_find_Some & Hrank).
    exists a. split_and!; [|done..]. by eapply list_elem_of_lookup_2.
  - intros (a & Hin & Hp & Ha & Hrank).
    destruct (list_find_elem_of (active_for productId) (productAccess u) a)
      as [[i a'] Hfind]; [done|by split|].
    exists i, a'. split; [done|].
    pose proof Hfind as (Hi & Ha' & _)%list_find_Some.
    rewrite (filter_at_most_one (active_for productId) (productAccess u) a' a);
      [done|done|by eapply list_elem_of_lookup_2|done|done|by split].
Qed.

Lemma hasProductAccess_iff_active_grant_witness :
  hasProductAccess carol "P" "read" = true
  ↔ ∃ a, a ∈ productAccess carol
         ∧ ProductAccess.productId a = "P"
         ∧ ProductAccess.isActive a = true
         ∧ rank_at_least (ProductAccess.accessLevel a) "read".
Proof.
  apply (hasProductAccess_iff_active_grant carol "P" "read").
  - apply list_elem_of_here.
  - unfold one_active_entry. vm_compute. lia.
Defined.

End UserFacts.

(** ** Token verification *)

Module AuthFacts.
Import Auth.

Example bearer_token : bearer (Some "Bearer abc.def.ghi") = Some "abc.def.ghi".
Proof. reflexivity. Qed.

Example bearer_missing : bearer None = None ∧ bearer (Some "Bearer") = None.
Proof. split; reflexivity. Qed.

(** dave's only product access was switched off by [removeProductAccess]. *)
Definition dave : User.t :=
  User.removeProductAccess
    (User.addProductAccess 10 (User.mk "dave" "user" true []) "P" "Shared board" "read"
       (Some "alice") None)
    "P".

(** erin never had any product access. *)
Definition erin : User.t := User.mk "erin" "user" true [].

(** frank's account was deactivated. *)
Definition frank : User.t :=
  User.addProductAccess 10 (User.mk "frank" "user" false []) "P" "Shared board" "read"
    (Some "alice") None.

(** A verifier that accepts every token for the user the token names. *)
Definition decode_as_name (token : string) : Verified := Decoded (Some token).

(** C5 as first stated fails: dave holds no active product access entry,
    and the middleware lets his request through. *)
Lemma no_active_entry_still_passes :
  Forall (λ a, ProductAccess.isActive a = false) (User.productAccess dave)
  ∧ User.hasProductAccess dave "P" "read" = false
  ∧ authenticateToken decode_as_name (Some "Bearer dave") [dave; erin; frank] = Next dave.
Proof.
  split_and!; [|reflexivity|reflexivity].
  repeat constructor.
Qed.

(** C5. With a token in the header, the middleware answers 401 with a
    message of its own to each of: an expired token ([Token expired]), a
    malformed token ([Invalid token]), and a principal that is unknown or
    inactive ([User not found or inactive]); and it answers 403
    [No product access granted], without calling [next()], to an active
    principal whose [productAccess] list is empty. *)
Theorem token_failures_are_told_apart
    (jwt_verify : string → Verified) (authorization : option string)
    (users : list User.t) (token : string) :
  bearer authorization = Some token → token ≠ "" →
  (jwt_verify token = Throws "TokenExpiredError" →
     authenticateToken jwt_verify authorization users = Respond 401 "Token expired")
  ∧ (jwt_verify token = Throws "JsonWebTokenError" →
       authenticateToken jwt_verify authorization users = Respond 401 "Invalid token")
  ∧ (∀ id, jwt_verify token = Decoded id →
       id ≫= User.findById users = None
       ∨ (∃ u, id ≫= User.findById users = Some u ∧ User.isActive u = false) →
       authenticateToken jwt_verify authorization users
       = Respond 401 "User not found or inactive")
  ∧ (∀ id u, jwt_verify token = Decoded id →
       id ≫= User.findById users = Some u → User.isActive u = true →
       User.productAccess u = [] →
       authenticateToken jwt_verify authorization users
       = Respond 403 "No product access granted")
  ∧ "Token expired" ≠ "Invalid token"
  ∧ "Token expired" ≠ "User not found or inactive"
  ∧ "Invalid token" ≠ "User not found or inactive".
Proof.
  intros Hb Hne.
  assert (∀ r, authenticateToken jwt_verify authorization users = r ↔
            match jwt_verify token with
            | Decoded userId =>
                match userId ≫= User.findById users with
                | None => Respond 401 "User not found or inactive"
                | Some user =>
                    if negb (User.isActive user) then Respond 401 "User not found or inactive"
                    else if bool_decide (length (User.productAccess user) = 0)
                    then Respond 403 "No product access granted"
                    else Next user
                end
            | Throws name =>
                if decide (name = "TokenExpiredError") then Respond 401 "Token expired"
                else if decide (name = "JsonWebTokenError") then Respond 401 "Invalid token"
                else Respond 500 "Authentication failed"
            end = r) as Hstep.
  { intros r. unfold authenticateToken. rewrite Hb. simpl.
    by rewrite bool_decide_eq_true_2. }
  split_and!; try done.
  - intros Hv. apply Hstep. by rewrite Hv.
  - intros Hv. apply Hstep. by rewrite Hv.
  - intros id Hv [Hnone|(u & Hu & Hinactive)]; apply Hstep; rewrite Hv.
    + by rewrite Hnone.
    + by rewrite Hu, Hinactive.
  - intros id u Hv Hu Hactive Hempty. apply Hstep.
    by rewrite Hv, Hu, Hactive, Hempty.
Qed.

(** Verifiers for the three failures. *)
Definition always_expired (token : string) : Verified := Throws "TokenExpiredError".
Definition always_malformed (token : string) : Verified := Throws "JsonWebTokenError".

Lemma token_failures_are_told_apart_witness :
  authenticateToken always_expired (Some "Bearer erin") [dave; erin; frank]
  = Respond 401 "Token expired"
  ∧ authenticateToken always_malformed (Some "Bearer erin") [dave; erin; frank]
    = Respond 401 "Invalid token"
  ∧ authenticateToken decode_as_name (Some "Bearer frank") [dave; erin; frank]
    = Respond 401 "User not found or inactive"
  ∧ authenticateToken decode_as_name (Some "Bearer grace") [dave; erin; frank]
    = Respond 401 "User not found or inactive"
  ∧ authenticateToken decode_as_name (Some "Bearer erin") [dave; erin; frank]
    = Respond 403 "No product access granted".
Proof.
  split_and!.
  - apply (token_failures_are_told_apart always_expired (Some "Bearer erin")
             [dave; erin; frank] "erin"); [reflexivity|discriminate|reflexivity].
  - apply (token_failures_are_told_apart always_malformed (Some "Bearer erin")
             [dave; erin; frank] "erin"); [reflexivity|discriminate|reflexivity].
  - apply (token_failures_are_told_apart decode_as_name (Some "Bearer frank")
             [dave; erin; frank] "frank" eq_refl ltac:(discriminate)) with (id := Some "frank");
      [reflexivity|].
    right. exists frank. split; reflexivity.
  - apply (token_failures_are_told_apart decode_as_name (Some "Bearer grace")
             [dave; erin; frank] "grace" eq_refl ltac:(discriminate)) with (id := Some "grace");
      [reflexivity|].
    left. reflexivity.
  - apply (token_failures_are_told_apart decode_as_name (Some "Bearer erin")
             [dave; erin; frank] "erin" eq_refl ltac:(discriminate))
      with (id := Some "erin") (u := erin); reflexivity.
Defined.

End AuthFacts.

(** ** Family groups *)

Module FamilyGroupFacts.
Import FamilyGroup.

(** The four roles of a member, and the static table of default
    permissions as the specification words it. *)
Inductive Role := owner_role | admin_role | member_role | guest_role.

Definition role_name (r : Role) : string :=
  match r with
  | owner_role => "owner"
  | admin_role => "admin"
  | member_role => "member"
  | guest_role => "guest"
  end.

Definition permission_table (r : Role) : Permissions.t :=
  match r with
  | owner_role | admin_role => Permissions.mk true true true true
  | member_role => Permissions.mk false false true true
  | guest_role => Permissions.mk false false false false
  end.

Lemma getDefaultPermissions_table r :
  getDefaultPermissions (role_name r) = permission_table r.
Proof. by destruct r. Qed.


(** C7. When [updateMemberRole] goes through (the member exists and the
    caller may manage them) the call resolves, the document is saved, and
    the member's record carries the new role and exactly the table's
    permissions for it, whatever permissions the member had before; the
    other members are untouched. *)
Theorem updateMemberRole_resets_permissions now d userId r updatedBy i m :
  list_find (λ m, FamilyMember.userId m = userId) (members (this d)) = Some (i, m) →
  canManageMember (this d) updatedBy m = true →
  ∃ g,
    updateMemberRole now userId (role_name r) updatedBy d
    = (Resolved g, {| this := g; stored := g |})
    ∧ members g !! i
      = Some {| FamilyMember.userId := userId;
                FamilyMember.role := role_name r;
                FamilyMember.joinedAt := FamilyMember.joinedAt m;
                FamilyMember.invitedBy := FamilyMember.invitedBy m;
                FamilyMember.permissions := permission_table r |}
    ∧ length (members g) = length (members (this d))
    ∧ ∀ j, j ≠ i → members g !! j = members (this d) !! j.
Proof.
  intros Hfind Hcan. unfold updateMemberRole. rewrite Hfind, Hcan. simpl.
  apply list_find_Some in Hfind as (Hi & Hu & _).
  eexists. split; [reflexivity|]. simpl.
  rewrite getDefaultPermissions_table, Hu.
  split_and!.
  - apply list_lookup_insert_eq. by eapply lookup_lt_Some.
  - apply length_insert.
  - intros j Hj. by apply list_lookup_insert_ne.
Qed.

Definition plain (userId : ObjectId) (role : string) : FamilyMember.t :=
  {| FamilyMember.userId := userId; FamilyMember.role := role;
     FamilyMember.joinedAt := 100; FamilyMember.invitedBy := None;
     FamilyMember.permissions := getDefaultPermissions role |}.

(** A household: alice owns it, bob is an admin who was given every
    permission, carol is a member. *)
Definition household : t :=
  {| name := "Household"; allowInvites := true; maxMembers := 20; owner := "alice";
     members := [plain "alice" "owner"; plain "bob" "admin"; plain "carol" "member"];
     pendingInvitations :=
       [{| Invitation.email := "dan@example.com"; Invitation.invitedBy := "alice";
           Invitation.invitedAt := 1000; Invitation.expiresAt := 5000;
           Invitation.role := "member"; Invitation.message := "";
           Invitation.status := "pending" |}];
     memberCount := 3; lastActivity := None |}.

Definition at_rest (g : t) : Doc := {| this := g; stored := g |}.

Lemma updateMemberRole_resets_permissions_witness :
  ∃ g,
    updateMemberRole 2000 "bob" "guest" "alice" (at_rest household)
    = (Resolved g, {| this := g; stored := g |})
    ∧ members g !! 1
      = Some {| FamilyMember.userId := "bob"; FamilyMember.role := "guest";
                FamilyMember.joinedAt := 100; FamilyMember.invitedBy := None;
                FamilyMember.permissions := Permissions.mk false false false false |}
    ∧ length (members g) = length (members household)
    ∧ ∀ j, j ≠ 1 → members g !! j = members household !! j.
Proof.
  apply (updateMemberRole_resets_permissions 2000 (at_rest household) "bob" guest_role
           "alice" 1 (plain "bob" "admin")); reflexivity.
Defined.

(** The calls a client can make on a family group document. *)
Inductive Call :=
| AddMember (now : Date) (userId : ObjectId) (role : string) (invitedBy : option ObjectId)
| RemoveMember (now : Date) (userId removedBy : ObjectId)
| UpdateMemberRole (now : Date) (userId : ObjectId) (newRole : string) (updatedBy : ObjectId)
| InviteUser (now : Date) (email role : string) (invitedBy : ObjectId) (message : string)
| AcceptInvitation (now : Date) (email : string) (userId : ObjectId)
| DeclineInvitation (now : Date) (email : string).

Definition call (c : Call) : Method :=
  match c with
  | AddMember now userId role invitedBy => addMember now userId role invitedBy
  | RemoveMember now userId removedBy => removeMember now userId removedBy
  | UpdateMemberRole now userId newRole updatedBy =>
      updateMemberRole now userId newRole updatedBy
  | InviteUser now email role invitedBy message =>
      inviteUser now email role invitedBy message
  | AcceptInvitation now email userId => acceptInvitation now email userId
  | DeclineInvitation now email => declineInvitation now email
  end.

(** The document after a sequence of calls, whatever their outcomes. *)
Definition run (calls : list Call) (d : Doc) : Doc :=
  foldl (λ d c, snd (call c d)) d calls.

(** The invitation at [index] is [inv] and is no longer pending. *)
Definition settled_at (index : nat) (inv : Invitation.t) (d : Doc) : Prop :=
  pendingInvitations (this d) !! index = Some inv ∧ Invitation.status inv ≠ "pending".

Lemma addMember_invitations now userId role invitedBy d :
  pendingInvitations (this (snd (addMember now userId role invitedBy d)))
  = pendingInvitations (this d).
Proof.
  unfold addMember. destruct (isFull _); [done|].
  by destruct (list_find _ _) as [[??]|].
Qed.

Lemma mark_keeps_settled email index found s i inv d :
  list_find (λ inv, Invitation.email inv = email ∧ Invitation.status inv = "pending")
    (pendingInvitations (this d)) = Some (index, found) →
  settled_at i inv d → settled_at i inv (mark index found s d).
Proof.
  intros (Hfound & [_ Hpending] & _)%list_find_Some [Hi Hsettled].
  split; [|done]. simpl. rewrite list_lookup_insert_ne; [done|].
  intros ->. congruence.
Qed.

Lemma call_keeps_settled c d i inv :
  settled_at i inv d → settled_at i inv (snd (call c d)).
Proof.
  intros Hs. destruct c as [now u r by_|now u by_|now u r by_|now e r by_ msg|now e u|now e];
    simpl.
  - destruct Hs as [Hi Hsettled]. split; [|done]. by rewrite addMember_invitations.
  - unfold removeMember. destruct (list_find _ _) as [[j m]|]; [|done].
    by destruct (negb _).
  - unfold updateMemberRole. destruct (list_find _ _) as [[j m]|]; [|done].
    by destruct (negb _).
  - unfold inviteUser. destruct (negb _); [done|].
    destruct (list_find _ _) as [[j found]|]; [done|].
    destruct Hs as [Hi Hsettled]. split; [|done]. simpl.
    by apply lookup_app_l_Some.
  - unfold acceptInvitation.
    destruct (list_find _ _) as [[j found]|] eqn:Hfind; [|done].
    pose proof (mark_keeps_settled _ _ _ "expired" _ _ _ Hfind Hs) as Hexpired.
    pose proof (mark_keeps_settled _ _ _ "accepted" _ _ _ Hfind Hs) as Haccepted.
    destruct (bool_decide _); [done|].
    pose proof (addMember_invitations now u (Invitation.role found)
                  (Some (Invitation.invitedBy found)) (mark j found "accepted" d)) as Hsame.
    destruct (addMember _ _ _ _ _) as [[g|message] d'] eqn:Hadd;
      simpl in Hsame; destruct Haccepted as [Hi Hsettled];
      (split; [|done]); simpl; by rewrite Hsame.
  - unfold declineInvitation.
    destruct (list_find _ _) as [[j found]|] eqn:Hfind; [|done].
    by pose proof (mark_keeps_settled _ _ _ "declined" _ _ _ Hfind Hs).
Qed.

Lemma run_keeps_settled calls d i inv :
  settled_at i inv d → settled_at i inv (run calls d).
Proof.
  unfold run. revert d. induction calls as [|c calls IH]; intros d Hs; [done|].
  simpl. apply IH. by apply call_keeps_settled.
Qed.

(** C9. Accepting a pending invitation after its [expiresAt] is rejected
    with [Invitation has expired]; the invitation's status becomes
    [expired] and the document is saved that way; the members list is as
    it was; and no later call changes that invitation again: it has left
    [pending] once and for all. *)
Theorem expired_invitation_is_refused now d email userId index inv :
  list_find (λ inv, Invitation.email inv = email ∧ Invitation.status inv = "pending")
    (pendingInvitations (this d)) = Some (index, inv) →
  (Invitation.expiresAt inv < now)%Z →
  ∃ d',
    acceptInvitation now email userId d = (Rejected "Invitation has expired", d')
    ∧ stored d' = this d'
    ∧ pendingInvitations (this d') !! index = Some (Invitation.set_status "expired" inv)
    ∧ members (this d') = members (this d)
    ∧ ∀ calls,
        pendingInvitations (this (run calls d')) !! index
        = Some (Invitation.set_status "expired" inv).
Proof.
  intros Hfind Hexpired. unfold acceptInvitation. rewrite Hfind.
  rewrite bool_decide_eq_true_2 by done. simpl.
  eexists. split; [reflexivity|].
  apply list_find_Some in Hfind as (Hi & _ & _).
  assert (<[index := Invitation.set_status "expired" inv]> (pendingInvitations (this d))
            !! index = Some (Invitation.set_status "expired" inv)) as Hnew.
  { apply list_lookup_insert_eq. by eapply lookup_lt_Some. }
  split_and!; [done|done|done|].
  intros calls. by apply run_keeps_settled.
Qed.

Lemma expired_invitation_is_refused_witness :
  ∃ d',
    acceptInvitation 6000 "dan@example.com" "dan" (at_rest household)
    = (Rejected "Invitation has expired", d')
    ∧ stored d' = this d'
    ∧ pendingInvitations (this d') !! 0
      = Some {| Invitation.email := "dan@example.com"; Invitation.invitedBy := "alice";
                Invitation.invitedAt := 1000; Invitation.expiresAt := 5000;
                Invitation.role := "member"; Invitation.message := "";
                Invitation.status := "expired" |}
    ∧ members (this d') = members household
    ∧ ∀ calls,
        pendingInvitations (this (run calls d')) !! 0
        = Some {| Invitation.email := "dan@example.com"; Invitation.invitedBy := "alice";
                  Invitation.invitedAt := 1000; Invitation.expiresAt := 5000;
                  Invitation.role := "member"; Invitation.message := "";
                  Invitation.status := "expired" |}.
Proof.
  apply (expired_invitation_is_refused 6000 (at_rest household) "dan@example.com" "dan" 0
           {| Invitation.email := "dan@example.com"; Invitation.invitedBy := "alice";
              Invitation.invitedAt := 1000; Invitation.expiresAt := 5000;
              Invitation.role := "member"; Invitation.message := "";
              Invitation.status := "pending" |}).
  - reflexivity.
  - simpl. lia.
Defined.

Example accept_in_time :
  let '(outcome, d') := acceptInvitation 3000 "dan@example.com" "dan" (at_rest household) in
  FamilyMember.userId <$> members (this d') = ["alice"; "bob"; "carol"; "dan"]
  ∧ Invitation.status <$> pendingInvitations (stored d') = ["accepted"].
Proof. split; reflexivity. Qed.

End FamilyGroupFacts.

(** ** The last admin of a product, the owner of a family group *)

Module LastAdminFacts.
Import ProductRoutes.










(** alice's product as [POST /api/products] creates it, after bob joined
    and was given write access; and erik's product, whose only admin is
    its member fay. *)
Definition board : Product.t :=
  {| Product.productId := "P"; Product.productName := "Shared board";
     Product.status := "active"; Product.accessLevel := "invite-only";
     Product.maxUsers := 10; Product.currentUsers := 0;
     Product.isUnderMaintenance := false; Product.lastUpdate := None;
     Product.owner := "alice"; Product.administrators := [];
     Product.members :=
       [Member.mk "alice" "admin" 100 None; Member.mk "bob" "write" 200 None] |}.

Definition desk : Product.t :=
  {| Product.productId := "D"; Product.productName := "Desk";
     Product.status := "active"; Product.accessLevel := "invite-only";
     Product.maxUsers := 10; Product.currentUsers := 0;
     Product.isUnderMaintenance := false; Product.lastUpdate := None;
     Product.owner := "erik"; Product.administrators := [];
     Product.members :=
       [Member.mk "fay" "admin" 100 None; Member.mk "gus" "read" 200 None] |}.

Definition store : Db :=
  {| products := [board; desk];
     users :=
       [User.addProductAccess 100 (User.mk "alice" "user" true []) "P" "Shared board"
          "admin" None None;
        User.addProductAccess 200 (User.mk "bob" "user" true []) "P" "Shared board"
          "write" None None] |}.







Example demote_last_admin :
  put_member 3000 "P" "alice" "write" "alice" store
  = (Error 400 "Cannot remove the last admin from the product", store).
Proof. reflexivity. Qed.

Example remove_last_admin :
  delete_member 3000 "D" "fay" "erik" store
  = (Error 400 "Cannot remove the last admin from the product", store).
Proof. reflexivity. Qed.

Example promote_second_admin :
  (λ p, Member.accessLevel <$> Product.members p)
    <$> products (snd (put_member 3000 "P" "bob" "admin" "alice" store))
  = [["admin"; "admin"]; ["admin"; "read"]]
  ∧ (λ u, User.hasProductAccess u "P" "admin")
      <$> users (snd (put_member 3000 "P" "bob" "admin" "alice" store))
    = [true; true].
Proof. split; reflexivity. Qed.

Example remove_second_member :
  (λ p, Member.userId <$> Product.members p)
    <$> products (snd (delete_member 3000 "P" "bob" "alice" store))
  = [["alice"]; ["fay"; "gus"]]
  ∧ (λ u, length (User.productAccess u))
      <$> users (snd (delete_member 3000 "P" "bob" "alice" store))
    = [1; 0].
Proof. split; reflexivity. Qed.

End LastAdminFacts.

(** ** More list lemmas: [list_find] under updates *)

Section FindFacts.
Context {A : Type} (P : A → Prop) `{∀ x, Decision (P x)}.

Lemma list_find_cons x l :
  list_find P (x :: l)
  = if decide (P x) then Some (0, x) else prod_map S id <$> list_find P l.
Proof. reflexivity. Qed.

Lemma list_find_insert_hit l i x x' :
  list_find P l = Some (i, x) → P x' → list_find P (<[i := x']> l) = Some (i, x').
Proof.
  revert i. induction l as [|y l IH]; intros i; [done|].
  rewrite list_find_cons. destruct (decide (P y)) as [Hy|Hy].
  - intros [= <- <-] Hx'. change (<[0 := x']> (y :: l)) with (x' :: l).
    by rewrite list_find_cons, decide_True.
  - destruct (list_find P l) as [[j z]|] eqn:Hfind; [|done].
    intros [= <- <-] Hx'. change (<[S j := x']> (y :: l)) with (y :: <[j := x']> l).
    rewrite list_find_cons, decide_False by done.
    by rewrite (IH j eq_refl Hx').
Qed.

Lemma list_find_insert_miss l i x x' :
  l !! i = Some x → ¬ P x → ¬ P x' → list_find P (<[i := x']> l) = list_find P l.
Proof.
  revert i. induction l as [|y l IH]; intros i; [done|].
  destruct i as [|i].
  - intros [= ->] Hx Hx'. change (<[0 := x']> (x :: l)) with (x' :: l).
    by rewrite !list_find_cons, !decide_False.
  - intros Hi Hx Hx'. change (<[S i := x']> (y :: l)) with (y :: <[i := x']> l).
    rewrite !list_find_cons. destruct (decide (P y)); [done|].
    by rewrite (IH i Hi Hx Hx').
Qed.

Lemma list_find_snoc_hit l x :
  list_find P l = None → P x → list_find P (l ++ [x]) = Some (length l, x).
Proof.
  induction l as [|y l IH].
  - intros _ Hx. change ([] ++ [x]) with [x]. by rewrite list_find_cons, decide_True.
  - change ((y :: l) ++ [x]) with (y :: (l ++ [x])).
    rewrite !list_find_cons. destruct (decide (P y)); [done|].
    destruct (list_find P l); [done|]. intros _ Hx. by rewrite IH.
Qed.

Lemma list_find_snoc_miss l x :
  ¬ P x → list_find P (l ++ [x]) = list_find P l.
Proof.
  intros Hx. induction l as [|y l IH].
  - change ([] ++ [x]) with [x]. by rewrite list_find_cons, decide_False.
  - change ((y :: l) ++ [x]) with (y :: (l ++ [x])).
    rewrite !list_find_cons. destruct (decide (P y)); [done|]. by rewrite IH.
Qed.

(** Filtering by a weaker test does not change which element is found. *)
Lemma list_find_filter_weaker (Q : A → Prop) `{∀ x, Decision (Q x)} l :
  (∀ x, P x → Q x) → snd <$> list_find P (filter Q l) = snd <$> list_find P l.
Proof.
  intros HPQ. induction l as [|y l IH]; [done|].
  rewrite filter_cons, (list_find_cons y l).
  destruct (decide (Q y)) as [HQ|HQ].
  - rewrite list_find_cons. destruct (decide (P y)); [done|].
    destruct (list_find P (filter Q l)) as [[??]|], (list_find P l) as [[??]|];
      simpl in *; congruence.
  - rewrite decide_False by (intros HP; by apply HQ, HPQ).
    destruct (list_find P (filter Q l)) as [[??]|], (list_find P l) as [[??]|];
      simpl in *; congruence.
Qed.

Lemma list_find_filter_out (Q : A → Prop) `{∀ x, Decision (Q x)} l :
  (∀ x, P x → ¬ Q x) → list_find P (filter Q l) = None.
Proof.
  intros HPQ. apply list_find_None, Forall_forall.
  intros x [HQ _]%list_elem_of_filter HP. by apply (HPQ x).
Qed.

End FindFacts.

(** ** Who can reach an entry: grants given, changed and taken back *)

Module SharingFacts.
Import Clipboard.

Local Abbreviation by_user u := (λ share : Share.t, Share.userId share = u).

Lemma levels_cases level :
  (level = "read" ∧ levels level = Some 1)
  ∨ (level = "write" ∧ levels level = Some 2)
  ∨ (level ≠ "read" ∧ level ≠ "write" ∧ levels level = None).
Proof.
  unfold levels. destruct (decide (level = "read")) as [->|]; [by left|].
  destruct (decide (level = "write")) as [->|]; [by right; left|by right; right].
Qed.

Lemma find_grant_after_share now e u lvl :
  ∃ i, list_find (by_user u) (sharedWith (shareWithUser now e u lvl))
       = Some (i, {| Share.userId := u; Share.accessLevel := lvl; Share.grantedAt := now |}).
Proof.
  unfold shareWithUser.
  destruct (list_find (λ share, Share.userId share = u) (sharedWith e))
    as [[i old]|] eqn:Hfind; simpl.
  - exists i. pose proof Hfind as (_ & Hu & _)%list_find_Some. rewrite Hu.
    by apply (list_find_insert_hit (by_user u) _ _ old).
  - exists (length (sharedWith e)). by apply (list_find_snoc_hit (by_user u)).
Qed.

Lemma find_grant_of_other now e u v lvl :
  v ≠ u →
  list_find (by_user v) (sharedWith (shareWithUser now e u lvl))
  = list_find (by_user v) (sharedWith e).
Proof.
  intros Hne. unfold shareWithUser.
  destruct (list_find (λ share, Share.userId share = u) (sharedWith e))
    as [[i old]|] eqn:Hfind; simpl.
  - apply list_find_Some in Hfind as (Hi & Hu & _).
    apply (list_find_insert_miss (by_user v) _ _ old); simpl; congruence.
  - apply (list_find_snoc_miss (by_user v)). simpl. congruence.
Qed.

(** Whoever has write access to an entry has read access to it. *)
Theorem write_access_gives_read e u :
  userHasAccess e u "write" = true → userHasAccess e u "read" = true.
Proof.
  unfold userHasAccess. destruct (isPublic e); [done|].
  destruct (bool_decide (createdBy e = u)); [done|].
  destruct (list_find _ _) as [[i share]|]; [|done].
  unfold lookup. change (levels "write") with (Some 2). change (levels "read") with (Some 1).
  destruct (levels (Share.accessLevel share)) as [n|]; simpl.
  - rewrite !bool_decide_eq_true. lia.
  - by destruct (prototype _).
Qed.

Lemma write_access_gives_read_witness :
  userHasAccess (shareWithUser 2000 ClipboardFacts.new_entry "bob" "write") "bob" "read"
  = true.
Proof.
  apply (write_access_gives_read
           (shareWithUser 2000 ClipboardFacts.new_entry "bob" "write") "bob").
  reflexivity.
Defined.

(** After an entry was shared with a user at [read] or [write], what that
    user may do with it, when the entry is private and not the user's own,
    follows from the new level alone, whatever grant the user held before:
    reading in both cases, writing only after a share at [write]. *)
Theorem share_sets_the_level now e u lvl requiredLevel :
  lvl = "read" ∨ lvl = "write" →
  isPublic e = false → createdBy e ≠ u →
  userHasAccess (shareWithUser now e u lvl) u requiredLevel = true
  ↔ requiredLevel = "read" ∨ (requiredLevel = "write" ∧ lvl = "write").
Proof.
  intros Hlvl Hprivate Hcreator. unfold userHasAccess.
  assert (isPublic (shareWithUser now e u lvl) = isPublic e) as ->.
  { unfold shareWithUser. by destruct (list_find _ _) as [[??]|]. }
  assert (createdBy (shareWithUser now e u lvl) = createdBy e) as ->.
  { unfold shareWithUser. by destruct (list_find _ _) as [[??]|]. }
  rewrite Hprivate, bool_decide_eq_false_2 by done.
  destruct (find_grant_after_share now e u lvl) as [i Hfind].
  rewrite Hfind. simpl. unfold lookup.
  destruct (levels_cases requiredLevel)
    as [[-> ->]|[[-> ->]|(Hr & Hw & ->)]];
    destruct Hlvl as [-> | ->]; simpl.
  - split; [by left|done].
  - split; [by left|done].
  - split; [done|]. by intros [|[_ ?]].
  - split; [by right|done].
  - split; [by destruct (prototype requiredLevel)|]. by intros [|[? _]].
  - split; [by destruct (prototype requiredLevel)|]. by intros [|[? _]].
Qed.

Lemma share_sets_the_level_witness :
  userHasAccess
    (shareWithUser 3000 (shareWithUser 2000 ClipboardFacts.new_entry "bob" "write")
       "bob" "read")
    "bob" "write" = true
  ↔ "write" = "read" ∨ ("write" = "write" ∧ "read" = "write").
Proof.
  apply (share_sets_the_level 3000%Z
           (shareWithUser 2000 ClipboardFacts.new_entry "bob" "write") "bob" "read" "write").
  - by left.
  - reflexivity.
  - discriminate.
Defined.

(** Sharing an entry with one user changes nothing for any other user. *)
Theorem share_leaves_others_alone now e u lvl v requiredLevel :
  v ≠ u →
  userHasAccess (shareWithUser now e u lvl) v requiredLevel
  = userHasAccess e v requiredLevel.
Proof.
  intros Hne. unfold userHasAccess.
  assert (isPublic (shareWithUser now e u lvl) = isPublic e) as ->.
  { unfold shareWithUser. by destruct (list_find _ _) as [[??]|]. }
  assert (createdBy (shareWithUser now e u lvl) = createdBy e) as ->.
  { unfold shareWithUser. by destruct (list_find _ _) as [[??]|]. }
  pose proof (find_grant_of_other now e u v lvl Hne) as Hfind.
  by rewrite Hfind.
Qed.

Lemma share_leaves_others_alone_witness :
  userHasAccess (shareWithUser 2000 ClipboardFacts.new_entry "bob" "write") "carol" "read"
  = userHasAccess ClipboardFacts.new_entry "carol" "read".
Proof.
  apply (share_leaves_others_alone 2000%Z ClipboardFacts.new_entry "bob" "write" "carol"
           "read").
  discriminate.
Defined.

End SharingFacts.

Module RevokeFacts.
Import Clipboard.

(** [removeUserAccess] takes every grant of the user out of [sharedWith]:
    a private entry then denies that user, unless it is the creator, at
    every level; and what any other user may do is as before. *)
Theorem removeUserAccess_revokes e u :
  (u ∉ Share.userId <$> sharedWith (removeUserAccess e u))
  ∧ (∀ requiredLevel,
       isPublic e = false → createdBy e ≠ u →
       userHasAccess (removeUserAccess e u) u requiredLevel = false)
  ∧ (∀ v requiredLevel,
       v ≠ u →
       userHasAccess (removeUserAccess e u) v requiredLevel
       = userHasAccess e v requiredLevel).
Proof.
  assert (u ∉ (Share.userId <$> sharedWith (removeUserAccess e u))) as Hgone.
  { simpl. intros (share & Hu & Hin)%list_elem_of_fmap.
    apply list_elem_of_filter in Hin as [Hne _]. by apply Hne. }
  split_and!; [done| |].
  - intros requiredLevel Hprivate Hcreator. unfold userHasAccess. simpl.
    rewrite Hprivate, bool_decide_eq_false_2 by done.
    rewrite (list_find_filter_out (λ share, Share.userId share = u)); [done|].
    intros share Hu Hne. by apply Hne.
  - intros v requiredLevel Hne. unfold userHasAccess. simpl.
    destruct (isPublic e); [done|]. destruct (bool_decide (createdBy e = v)); [done|].
    pose proof (list_find_filter_weaker (λ share, Share.userId share = v)
                  (λ share, Share.userId share ≠ u) (sharedWith e)) as Hfind.
    destruct (list_find _ (filter _ _)) as [[i x]|], (list_find _ (sharedWith e)) as [[j y]|];
      simpl in Hfind; try (specialize (Hfind ltac:(congruence))); try congruence.
Qed.

Lemma removeUserAccess_revokes_witness :
  userHasAccess (removeUserAccess ClipboardFacts.shared_entry "bob") "bob" "read" = false.
Proof.
  apply (proj1 (proj2 (removeUserAccess_revokes ClipboardFacts.shared_entry "bob")) "read").
  - reflexivity.
  - discriminate.
Defined.



End RevokeFacts.

(** ** The order of a listing *)

Module PagingFacts.
Import Clipboard.

(** Newest first. *)
Definition newest_first : list t → Prop :=
  StronglySorted (λ a b, (createdAt b ≤ createdAt a)%Z).

Lemma insert_by_perm field descending e sorted :
  insert_by field descending e sorted ≡ₚ e :: sorted.
Proof.
  induction sorted as [|x sorted IH]; simpl; [done|].
  destruct (precedes _ _ _); [done|]. rewrite IH. apply Permutation_swap.
Qed.

Lemma sort_perm field descending docs : sort field descending docs ≡ₚ docs.
Proof.
  unfold sort. induction docs as [|e docs IH]; simpl; [done|].
  by rewrite insert_by_perm, IH.
Qed.

Lemma insert_by_newest_first e sorted :
  newest_first sorted → newest_first (insert_by "createdAt" true e sorted).
Proof.
  unfold newest_first. induction 1 as [|x sorted Hsorted IH Hx]; simpl.
  - repeat constructor.
  - unfold precedes, sort_key, key_leb. simpl.
    case_bool_decide as Hle.
    + constructor; [by constructor|]. constructor; [done|].
      eapply Forall_impl; [exact Hx|]. simpl. intros y Hy. lia.
    + constructor; [done|].
      rewrite insert_by_perm. constructor; [lia|done].
Qed.

Lemma sort_newest_first docs : newest_first (sort "createdAt" true docs).
Proof.
  unfold sort. induction docs as [|e docs IH]; simpl; [constructor|].
  by apply insert_by_newest_first.
Qed.

(** [findByProduct] loses and invents nothing: its result is a
    rearrangement of the documents that match its query; all of them belong
    to the product asked for; and they come newest first. *)
Theorem findByProduct_newest_first text_match productId options collection :
  findByProduct text_match productId options collection
  ≡ₚ find text_match (findByProduct_query productId options) collection
  ∧ Forall (λ e, Clipboard.productId e = productId)
      (findByProduct text_match productId options collection)
  ∧ newest_first (findByProduct text_match productId options collection).
Proof.
  unfold findByProduct. split_and!.
  - apply sort_perm.
  - rewrite sort_perm. apply Forall_forall. intros e.
    unfold find. rewrite list_elem_of_In, filter_In. intros [_ Hm].
    unfold matches, findByProduct_query in Hm. simpl in Hm.
    apply andb_prop in Hm as [Hp _]. by apply bool_decide_eq_true in Hp.
  - apply sort_newest_first.
Qed.

End PagingFacts.

(** ** The product access list of a user *)

Module AccessListFacts.
Import User.

Local Abbreviation for_product pid := (λ p : ProductAccess.t, ProductAccess.productId p = pid).
Local Abbreviation active_for pid :=
  (λ p : ProductAccess.t, ProductAccess.productId p = pid ∧ ProductAccess.isActive p = true).

(** At most one entry per product, active or not. *)
Definition one_entry_per_product (u : t) : Prop :=
  NoDup (ProductAccess.productId <$> productAccess u).

Lemma find_after_add now u pid name lvl grantedBy expiresAt :
  ∃ i, list_find (active_for pid)
         (productAccess (addProductAccess now u pid name lvl grantedBy expiresAt))
       = Some (i, ProductAccess.mk pid name lvl now grantedBy expiresAt true).
Proof.
  unfold addProductAccess.
  destruct (list_find (for_product pid) (productAccess u)) as [[i old]|] eqn:Hfind; simpl.
  - exists i. apply list_find_Some in Hfind as (Hi & Hp & Hleast).
    apply list_find_Some. split; [|split].
    + apply list_lookup_insert_eq. by eapply lookup_lt_Some.
    + done.
    + intros j y Hj Hlt Hy. destruct Hy as [Hy _].
      rewrite list_lookup_insert_ne in Hj by lia.
      by apply (Hleast j y).
  - exists (length (productAccess u)).
    apply (list_find_snoc_hit (active_for pid)); [|done].
    apply list_find_None. apply list_find_None in Hfind.
    eapply Forall_impl; [exact Hfind|]. simpl. tauto.
Qed.

(** After [addProductAccess] for a product at one of the levels read,
    write and admin, the user has access to that product at exactly the
    levels that rank no higher than the one given, whatever entry for the
    product the list held before, switched off or not; a requested level
    outside the table is never satisfied. *)
Theorem addProductAccess_sets_the_level now u pid name lvl grantedBy expiresAt requested :
  lvl ∈ ["read"; "write"; "admin"] →
  hasProductAccess (addProductAccess now u pid name lvl grantedBy expiresAt) pid requested
  = true
  ↔ UserFacts.rank_at_least lvl requested.
Proof.
  intros Hlvl. unfold hasProductAccess.
  destruct (find_after_add now u pid name lvl grantedBy expiresAt) as [i ->]. simpl.
  apply UserFacts.js_ge_rank. by left.
Qed.

Lemma addProductAccess_sets_the_level_witness :
  hasProductAccess
    (addProductAccess 20 UserFacts.carol "P" "Shared board" "write" None None) "P" "admin"
  = true
  ↔ UserFacts.rank_at_least "write" "admin".
Proof.
  apply (addProductAccess_sets_the_level 20%Z UserFacts.carol "P" "Shared board" "write"
           None None "admin").
  apply list_elem_of_further, list_elem_of_here.
Defined.

(** [addProductAccess] for one product changes nothing about the access to
    any other product. *)
Theorem addProductAccess_leaves_others now u pid name lvl grantedBy expiresAt other requested :
  other ≠ pid →
  hasProductAccess (addProductAccess now u pid name lvl grantedBy expiresAt) other requested
  = hasProductAccess u other requested.
Proof.
  intros Hne. unfold hasProductAccess, addProductAccess.
  destruct (list_find (for_product pid) (productAccess u)) as [[i old]|] eqn:Hfind; simpl.
  - apply list_find_Some in Hfind as (Hi & Hp & _).
    rewrite (list_find_insert_miss (active_for other) _ _ old); [done|done| |].
    + intros [Hold _]. congruence.
    + simpl. intros [Hnew _]. congruence.
  - rewrite (list_find_snoc_miss (active_for other)); [done|].
    simpl. intros [Hnew _]. congruence.
Qed.

Lemma addProductAccess_leaves_others_witness :
  hasProductAccess
    (addProductAccess 20 UserFacts.carol "Q" "Desk" "admin" None None) "P" "read"
  = hasProductAccess UserFacts.carol "P" "read".
Proof.
  apply (addProductAccess_leaves_others 20%Z UserFacts.carol "Q" "Desk" "admin" None None
           "P" "read").
  discriminate.
Defined.

Lemma addProductAccess_keeps_one_entry now u pid name lvl grantedBy expiresAt :
  one_entry_per_product u →
  one_entry_per_product (addProductAccess now u pid name lvl grantedBy expiresAt).
Proof.
  unfold one_entry_per_product, addProductAccess. intros Hone.
  destruct (list_find (for_product pid) (productAccess u)) as [[i old]|] eqn:Hfind; simpl.
  - apply list_find_Some in Hfind as (Hi & Hp & _).
    by rewrite (fmap_insert_same_key ProductAccess.productId _ _ old).
  - rewrite fmap_app. apply NoDup_app. split_and!; [done| |apply NoDup_singleton].
    intros x (a & -> & Hin)%list_elem_of_fmap Hnew%list_elem_of_singleton.
    apply list_find_None in Hfind. rewrite Forall_forall in Hfind. by apply (Hfind a).
Qed.

Lemma removeProductAccess_keeps_one_entry u pid :
  one_entry_per_product u → one_entry_per_product (removeProductAccess u pid).
Proof.
  unfold one_entry_per_product, removeProductAccess. intros Hone.
  destruct (list_find (for_product pid) (productAccess u)) as [[i old]|] eqn:Hfind;
    [|done]. simpl.
  apply list_find_Some in Hfind as (Hi & Hp & _).
  by rewrite (fmap_insert_same_key ProductAccess.productId _ _ old).
Qed.

(** The list of a user keeps at most one entry per product under
    [addProductAccess] and [removeProductAccess]; and on such a list
    [removeProductAccess] does take the access away, at every level. *)
Theorem removeProductAccess_revokes u :
  one_entry_per_product u →
  (∀ now pid name lvl grantedBy expiresAt,
     one_entry_per_product (addProductAccess now u pid name lvl grantedBy expiresAt))
  ∧ (∀ pid, one_entry_per_product (removeProductAccess u pid))
  ∧ (∀ pid requested, hasProductAccess (removeProductAccess u pid) pid requested = false).
Proof.
  intros Hone. split_and!.
  - intros. by apply addProductAccess_keeps_one_entry.
  - intros. by apply removeProductAccess_keeps_one_entry.
  - intros pid requested. unfold hasProductAccess.
    assert (list_find (active_for pid) (productAccess (removeProductAccess u pid)) = None)
      as ->; [|done].
    apply list_find_None, Forall_lookup. intros j y Hj [Hy Hactive].
    unfold removeProductAccess in Hj.
    destruct (list_find (for_product pid) (productAccess u)) as [[i old]|] eqn:Hfind.
    + simpl in Hj. pose proof Hfind as (Hi & Hp & _)%list_find_Some.
      destruct (decide (j = i)) as [->|Hji].
      * rewrite list_lookup_insert_eq in Hj by by eapply lookup_lt_Some.
        injection Hj as <-. done.
      * rewrite list_lookup_insert_ne in Hj by done.
        apply Hji. eapply (NoDup_lookup _ j i pid Hone);
          rewrite list_lookup_fmap; [by rewrite Hj; simpl; rewrite Hy|by rewrite Hi; simpl; rewrite Hp].
    + apply list_find_None in Hfind. rewrite Forall_lookup in Hfind.
      by apply (Hfind j y).
Qed.

Lemma removeProductAccess_revokes_witness :
  hasProductAccess (removeProductAccess UserFacts.carol "P") "P" "read" = false.
Proof.
  apply (proj2 (proj2 (removeProductAccess_revokes UserFacts.carol
                         ltac:(vm_compute; apply NoDup_singleton)))).
Defined.

(** Every user who has access to a product at some level is among the
    users that [findByProductAccess] returns for the product. *)
Theorem findByProductAccess_finds_holders productId users u requested :
  u ∈ users → hasProductAccess u productId requested = true →
  u ∈ findByProductAccess productId users.
Proof.
  intros Hin Haccess. unfold findByProductAccess. apply list_elem_of_filter.
  split; [|done].
  unfold hasProductAccess in Haccess.
  destruct (list_find _ _) as [[i a]|] eqn:Hfind; [|done].
  apply list_find_Some in Hfind as (Hi & [Hp Hactive] & _).
  split; apply Exists_exists; exists a; (split; [by eapply list_elem_of_lookup_2|done]).
Qed.

Lemma findByProductAccess_finds_holders_witness :
  UserFacts.carol ∈ findByProductAccess "P" [AuthFacts.dave; UserFacts.carol].
Proof.
  apply (findByProductAccess_finds_holders "P" [AuthFacts.dave; UserFacts.carol]
           UserFacts.carol "read").
  - apply list_elem_of_further, list_elem_of_here.
  - reflexivity.
Defined.

End AccessListFacts.

(** ** Failed logins and the lock *)

Module LoginFacts.
Import Login.

(** The account after failed logins at the given times, oldest first. *)
Definition fail_at (times : list Date) (s : t) : t :=
  foldl (λ s now, incLoginAttempts now s) s times.

Lemma fail_unlocked now s :
  lockUntil s = None →
  incLoginAttempts now s
  = {| loginAttempts := (loginAttempts s + 1)%Z;
       lockUntil := if bool_decide (5 ≤ loginAttempts s + 1)%Z
                    then Some (now + lock_time)%Z else None |}.
Proof.
  intros Hnone. unfold incLoginAttempts, isLocked. rewrite Hnone. simpl.
  by rewrite andb_true_r.
Qed.

Lemma few_failures times s :
  length times < 5 →
  fail_at times (resetLoginAttempts s)
  = {| loginAttempts := Z.of_nat (length times); lockUntil := None |}.
Proof.
  unfold fail_at. induction times as [|now times IH] using rev_ind; [done|].
  rewrite length_app. simpl. intros Hlen. rewrite foldl_app. simpl.
  rewrite IH by lia. rewrite fail_unlocked by done. simpl.
  rewrite bool_decide_eq_false_2 by lia. f_equal. lia.
Qed.

(** Counting from a reset, the first four failed logins leave the account
    open, whenever they happen; the fifth locks it, for two hours from that
    moment. *)
Theorem fifth_failure_locks s times :
  (length times < 5 →
   ∀ later, isLocked later (fail_at times (resetLoginAttempts s)) = false)
  ∧ (length times = 4 →
     ∀ now later,
       isLocked later (incLoginAttempts now (fail_at times (resetLoginAttempts s))) = true
       ↔ (later < now + 2 * 60 * 60 * 1000)%Z).
Proof.
  split.
  - intros Hlen later. by rewrite few_failures.
  - intros Hlen now later. rewrite few_failures by lia.
    rewrite fail_unlocked by done. simpl. rewrite Hlen. simpl.
    unfold isLocked. simpl. by rewrite bool_decide_eq_true.
Qed.

Lemma fifth_failure_locks_witness :
  isLocked 7000 (fail_at [1000; 2000; 3000; 4000]%Z (resetLoginAttempts (mk 9 None))) = false
  ∧ (isLocked 7000
       (incLoginAttempts 5000 (fail_at [1000; 2000; 3000; 4000]%Z
                                 (resetLoginAttempts (mk 9 None)))) = true
     ↔ (7000 < 5000 + 2 * 60 * 60 * 1000)%Z).
Proof.
  split.
  - apply (proj1 (fifth_failure_locks (mk 9 None) [1000; 2000; 3000; 4000]%Z)).
    simpl. lia.
  - apply (proj2 (fifth_failure_locks (mk 9 None) [1000; 2000; 3000; 4000]%Z)).
    reflexivity.
Defined.

(** A failed login while the account is locked adds to the count and
    leaves the end of the lock where it was; a failed login after the lock
    has run out clears the lock and starts the count again at one. *)
Theorem lock_is_not_extended now s until :
  lockUntil s = Some until →
  ((now < until)%Z →
   incLoginAttempts now s
   = {| loginAttempts := (loginAttempts s + 1)%Z; lockUntil := Some until |})
  ∧ ((until < now)%Z →
     incLoginAttempts now s = {| loginAttempts := 1; lockUntil := None |}).
Proof.
  intros Hlock. unfold incLoginAttempts, isLocked. rewrite Hlock. split; intros Htime.
  - rewrite bool_decide_eq_false_2 by lia.
    rewrite (bool_decide_eq_true_2 (now < until)%Z) by done.
    by rewrite andb_false_r.
  - by rewrite bool_decide_eq_true_2.
Qed.

Lemma lock_is_not_extended_witness :
  incLoginAttempts 6000 (mk 5 (Some 7205000%Z)) = mk 6 (Some 7205000%Z)
  ∧ incLoginAttempts 8000000 (mk 6 (Some 7205000%Z)) = mk 1 None.
Proof.
  split.
  - apply (proj1 (lock_is_not_extended 6000%Z (mk 5 (Some 7205000%Z)) 7205000%Z eq_refl)).
    lia.
  - apply (proj2 (lock_is_not_extended 8000000%Z (mk 6 (Some 7205000%Z)) 7205000%Z eq_refl)).
    lia.
Defined.

End LoginFacts.

(** ** Products: strangers, administrators and seats *)

Module ProductPolicyFacts.
Import Product.

(** On an available product, a user who is neither the owner nor listed
    among the administrators is let in exactly when the product's access
    level is [public] or [registered], and then at the level of that name;
    [invite-only], [family-only] and anything else keep the user out. *)
Theorem stranger_policy p u userRole :
  isAvailable p = true → owner p ≠ u →
  u ∉ (Administrator.userId <$> administrators p) →
  (canAccess (canUserAccess p u userRole) = true
   ↔ accessLevel p = "public" ∨ accessLevel p = "registered")
  ∧ (canAccess (canUserAccess p u userRole) = true →
     level (canUserAccess p u userRole) = Some (accessLevel p)).
Proof.
  intros Havailable Howner Hadmin. unfold canUserAccess.
  rewrite Havailable, bool_decide_eq_false_2 by done. simpl.
  destruct (list_find _ _) as [[i a]|] eqn:Hfind.
  { exfalso. apply Hadmin. apply list_find_Some in Hfind as (Hi & Hu & _).
    apply list_elem_of_fmap. exists a. split; [done|]. by eapply list_elem_of_lookup_2. }
  repeat case_decide; simpl; split; try done; try (intros _; by f_equal);
    try (split; [done|by intros [|]]); try (split; [intros _|done]; tauto).
Qed.

Lemma stranger_policy_witness :
  (canAccess (canUserAccess ProductFacts.open_product "zed" "user") = true
   ↔ accessLevel ProductFacts.open_product = "public"
     ∨ accessLevel ProductFacts.open_product = "registered").
Proof.
  apply (stranger_policy ProductFacts.open_product "zed" "user").
  - reflexivity.
  - discriminate.
  - simpl. apply not_elem_of_nil.
Defined.

Lemma find_admin_after_add now p u role grantedBy :
  ∃ i a, list_find (λ a, Administrator.userId a = u)
           (administrators (addAdministrator now p u role grantedBy)) = Some (i, a)
         ∧ Administrator.role a = role.
Proof.
  unfold addAdministrator.
  destruct (list_find (λ a, Administrator.userId a = u) (administrators p))
    as [[i old]|] eqn:Hfind; simpl.
  - eexists i, _. split;
      [by apply (list_find_insert_hit (λ a, Administrator.userId a = u) _ _ old)|done].
  - eexists _, _. split;
      [by apply (list_find_snoc_hit (λ a, Administrator.userId a = u))|done].
Qed.

(** On an available product, a user other than the owner who was made an
    administrator is let in at the level of the role given, the last one
    given if there were several; and once [removeAdministrator] was
    called, no entry of that user is left in the list. *)
Theorem administrator_is_let_in now p u role grantedBy userRole :
  isAvailable p = true → owner p ≠ u →
  canUserAccess (addAdministrator now p u role grantedBy) u userRole
  = {| canAccess := true; level := Some role; reason := None |}
  ∧ (u ∉ Administrator.userId
            <$> administrators
                  (removeAdministrator now (addAdministrator now p u role grantedBy) u)).
Proof.
  intros Havailable Howner. split.
  - unfold canUserAccess.
    assert (isAvailable (addAdministrator now p u role grantedBy) = isAvailable p) as ->.
    { unfold addAdministrator. by destruct (list_find _ _) as [[??]|]. }
    assert (owner (addAdministrator now p u role grantedBy) = owner p) as ->.
    { unfold addAdministrator. by destruct (list_find _ _) as [[??]|]. }
    destruct (find_admin_after_add now p u role grantedBy) as (i & a & Hfind & Hrole).
    rewrite Havailable, bool_decide_eq_false_2 by done. simpl.
    by rewrite Hfind, Hrole.
  - simpl. intros (a & Hu & Hin)%list_elem_of_fmap.
    apply list_elem_of_filter in Hin as [Hne _]. by apply Hne.
Qed.

Lemma administrator_is_let_in_witness :
  canUserAccess (addAdministrator 3000 ProductFacts.open_product "bob" "support" None) "bob"
    "user"
  = allow "support".
Proof.
  apply (administrator_is_let_in 3000%Z ProductFacts.open_product "bob" "support" None
           "user").
  - reflexivity.
  - discriminate.
Defined.

(** Taking the last seat closes the product: [incrementUserCount] goes
    through, and from then on [canUserAccess] answers [Product not
    available] to every user, the owner too. *)
Theorem last_seat_closes_the_product now p :
  (currentUsers p + 1 = maxUsers p)%Z →
  ∃ p', incrementUserCount now p = Resolved p'
        ∧ ∀ u userRole,
            canUserAccess p' u userRole
            = {| canAccess := false; level := None;
                 reason := Some "Product not available" |}.
Proof.
  intros Hlast. unfold incrementUserCount. rewrite bool_decide_eq_true_2 by lia.
  eexists. split; [reflexivity|]. intros u userRole.
  unfold canUserAccess, isAvailable. simpl.
  rewrite (bool_decide_eq_false_2 (_ < _)%Z) by lia. by rewrite andb_false_r.
Qed.

Definition nearly_full : t := set_currentUsers 9 ProductFacts.open_product.

Lemma last_seat_closes_the_product_witness :
  ∃ p', incrementUserCount 3000 nearly_full = Resolved p'
        ∧ ∀ u userRole,
            canUserAccess p' u userRole
            = {| canAccess := false; level := None;
                 reason := Some "Product not available" |}.
Proof. apply (last_seat_closes_the_product 3000%Z nearly_full). reflexivity. Defined.

End ProductPolicyFacts.

(** ** Family groups: what every call keeps *)

Module GroupInvariantFacts.
Import FamilyGroup FamilyGroupFacts.

(** How one call can change the members list of a group with room for
    [maxMembers]. *)
Inductive members_step (maxMembers : Z) (l : list FamilyMember.t)
    : list FamilyMember.t → Prop :=
| step_same : members_step maxMembers l l
| step_join m :
    (Z.of_nat (length l) < maxMembers)%Z →
    FamilyMember.userId m ∉ (FamilyMember.userId <$> l) →
    members_step maxMembers l (l ++ [m])
| step_leave i : members_step maxMembers l (delete i l)
| step_change i m m' :
    l !! i = Some m → FamilyMember.userId m' = FamilyMember.userId m →
    members_step maxMembers l (<[i := m']> l).

Lemma addMember_step now userId role invitedBy d :
  members_step (maxMembers (this d)) (members (this d))
    (members (this (snd (addMember now userId role invitedBy d))))
  ∧ maxMembers (this (snd (addMember now userId role invitedBy d))) = maxMembers (this d).
Proof.
  unfold addMember, isFull. case_bool_decide as Hfull; [by split; [constructor|]|].
  destruct (list_find (λ m, FamilyMember.userId m = userId) (members (this d)))
    as [[i m]|] eqn:Hfind; [by split; [constructor|]|].
  simpl. split; [|done]. apply step_join; [lia|]. simpl.
  intros (m & Hu & Hin)%list_elem_of_fmap.
  apply list_find_None in Hfind. rewrite Forall_forall in Hfind. by apply (Hfind m).
Qed.

Lemma call_step c d :
  members_step (maxMembers (this d)) (members (this d)) (members (this (snd (call c d))))
  ∧ maxMembers (this (snd (call c d))) = maxMembers (this d).
Proof.
  destruct c as [now u r by_|now u by_|now u r by_|now e r by_ msg|now e u|now e]; simpl.
  - apply addMember_step.
  - unfold removeMember.
    destruct (list_find (λ m, FamilyMember.userId m = u) (members (this d)))
      as [[i m]|]; [|by split; [constructor|]].
    destruct (negb _); [by split; [constructor|]|]. simpl. split; [constructor|done].
  - unfold updateMemberRole.
    destruct (list_find (λ m, FamilyMember.userId m = u) (members (this d)))
      as [[i m]|] eqn:Hfind; [|by split; [constructor|]].
    destruct (negb _); [by split; [constructor|]|]. simpl. split; [|done].
    apply list_find_Some in Hfind as (Hi & _ & _). by eapply step_change.
  - unfold inviteUser. destruct (negb _); [by split; [constructor|]|].
    destruct (list_find _ (pendingInvitations (this d))) as [[i inv]|];
      by split; [constructor|].
  - unfold acceptInvitation.
    destruct (list_find _ (pendingInvitations (this d))) as [[i inv]|];
      [|by split; [constructor|]].
    destruct (bool_decide _); [by split; [constructor|]|].
    pose proof (addMember_step now u (Invitation.role inv) (Some (Invitation.invitedBy inv))
                  (mark i inv "accepted" d)) as Hstep.
    destruct (addMember _ _ _ _ _) as [[g|message] d']; exact Hstep.
  - unfold declineInvitation.
    destruct (list_find _ (pendingInvitations (this d))) as [[i inv]|];
      by split; [constructor|].
Qed.

(** No user is a member twice, and there are no more members than the
    group has room for. *)
Definition members_in_order (d : Doc) : Prop :=
  NoDup (FamilyMember.userId <$> members (this d))
  ∧ (Z.of_nat (length (members (this d))) ≤ maxMembers (this d))%Z.

Lemma step_keeps_order maxMembers l l' :
  members_step maxMembers l l' →
  NoDup (FamilyMember.userId <$> l) → (Z.of_nat (length l) ≤ maxMembers)%Z →
  NoDup (FamilyMember.userId <$> l') ∧ (Z.of_nat (length l') ≤ maxMembers)%Z.
Proof.
  intros Hstep Hnodup Hroom. destruct Hstep as [|m Hfree Hnew|i|i m m' Hi Hsame].
  - done.
  - split.
    + rewrite fmap_app. apply NoDup_app. split_and!; [done| |apply NoDup_singleton].
      intros x Hx Hm%list_elem_of_singleton. simpl in Hm. by subst.
    + rewrite length_app. simpl. lia.
  - split.
    + rewrite list_fmap_delete.
      eapply sublist_NoDup; [exact Hnodup|apply sublist_delete].
    + assert (length (delete i l) ≤ length l) by apply sublist_length, sublist_delete.
      lia.
  - split.
    + by rewrite (fmap_insert_same_key FamilyMember.userId _ _ m).
    + by rewrite length_insert.
Qed.

(** Whatever calls are made on a family group document, in whatever order
    and with whatever outcome, no user comes to be a member twice and the
    number of members never passes [maxMembers]. *)
Theorem calls_keep_members_in_order calls d :
  members_in_order d → members_in_order (run calls d).
Proof.
  unfold run. revert d. induction calls as [|c calls IH]; intros d Horder; [done|].
  simpl. apply IH. destruct Horder as [Hnodup Hroom].
  destruct (call_step c d) as [Hstep Hmax].
  unfold members_in_order. rewrite Hmax. by eapply step_keeps_order.
Qed.

Lemma calls_keep_members_in_order_witness :
  members_in_order
    (run [AddMember 2000 "bob" "member" None; InviteUser 2100 "x@y.z" "guest" "alice" "";
          AcceptInvitation 2200 "x@y.z" "xavier"; RemoveMember 2300 "carol" "alice";
          AddMember 2400 "xavier" "admin" None]
       (at_rest household)).
Proof.
  apply (calls_keep_members_in_order _ (at_rest household)).
  split; [|vm_compute; discriminate].
  simpl. repeat (apply NoDup_cons; split;
                   [rewrite ?elem_of_cons, ?elem_of_nil; intuition discriminate|]).
  apply NoDup_nil_2.
Defined.

(** The arguments of a call that the schema accepts: a role of the
    members' enum for a member, a role of the invitations' enum and an
    address that is not empty for an invitation.  With such arguments no
    [save()] of the call is refused by a validator. *)
Definition accepted_arguments (c : Call) : Prop :=
  match c with
  | AddMember _ _ role _ => role ∈ ["owner"; "admin"; "member"; "guest"]
  | UpdateMemberRole _ _ newRole _ => newRole ∈ ["owner"; "admin"; "member"; "guest"]
  | InviteUser _ email role _ _ => email ≠ "" ∧ role ∈ ["member"; "guest"]
  | RemoveMember _ _ _ | AcceptInvitation _ _ _ | DeclineInvitation _ _ => True
  end.

(** A call with arguments that the schema accepts, when it is rejected,
    adds and removes no member; unless it is the acceptance of an expired
    invitation, it stores nothing; and any call but [acceptInvitation]
    leaves the document in memory as it was too. *)
Theorem rejected_call_changes_no_member c d message :
  accepted_arguments c →
  fst (call c d) = Rejected message →
  members (this (snd (call c d))) = members (this d)
  ∧ (message ≠ "Invitation has expired" → stored (snd (call c d)) = stored d)
  ∧ ((∀ now email userId, c ≠ AcceptInvitation now email userId) → snd (call c d) = d).
Proof.
  intros _.
  destruct c as [now u r by_|now u by_|now u r by_|now e r by_ msg|now e u|now e]; simpl.
  - unfold addMember. destruct (isFull _); [done|].
    by destruct (list_find _ (members (this d))) as [[??]|].
  - unfold removeMember.
    destruct (list_find _ (members (this d))) as [[i m]|]; [|done].
    by destruct (negb _).
  - unfold updateMemberRole.
    destruct (list_find _ (members (this d))) as [[i m]|]; [|done].
    by destruct (negb _).
  - unfold inviteUser. destruct (negb _); [done|].
    by destruct (list_find _ (pendingInvitations (this d))) as [[i inv]|].
  - unfold acceptInvitation.
    destruct (list_find _ (pendingInvitations (this d))) as [[i inv]|].
    2:{ intros _. split_and!; [done|done|]. intros Hno. by destruct (Hno now e u). }
    destruct (bool_decide _).
    { simpl. intros [= <-]. split_and!; [done|done|].
      intros Hno. by destruct (Hno now e u). }
    unfold addMember. simpl. destruct (isFull _).
    { simpl. intros _. split_and!; [done|done|].
      intros Hno. by destruct (Hno now e u). }
    destruct (list_find _ (members (this d))) as [[??]|]; [|done].
    simpl. intros _. split_and!; [done|done|].
    intros Hno. by destruct (Hno now e u).
  - unfold declineInvitation.
    by destruct (list_find _ (pendingInvitations (this d))) as [[i inv]|].
Qed.

Lemma rejected_call_changes_no_member_witness :
  snd (call (RemoveMember 2000 "alice" "carol") (at_rest household)) = at_rest household.
Proof.
  apply (rejected_call_changes_no_member (RemoveMember 2000 "alice" "carol")
           (at_rest household) "Insufficient permissions to remove member" I eq_refl).
  discriminate.
Defined.

(** A caller who is not a member, or whose record carries neither the role
    [owner] nor the role [admin], can remove nobody and change nobody's
    role: both calls are rejected and leave the document as it was. *)
Theorem only_owners_and_admins_manage d caller :
  (∀ i m, list_find (λ m, FamilyMember.userId m = caller) (members (this d)) = Some (i, m) →
          FamilyMember.role m ≠ "owner" ∧ FamilyMember.role m ≠ "admin") →
  ∀ now userId newRole,
    (∃ message, removeMember now userId caller d = (Rejected message, d))
    ∧ (∃ message, updateMemberRole now userId newRole caller d = (Rejected message, d)).
Proof.
  intros Hlow now userId newRole.
  assert (∀ target, canManageMember (this d) caller target = false) as Hno.
  { intros target. unfold canManageMember.
    destruct (list_find (λ m, FamilyMember.userId m = caller) (members (this d)))
      as [[i m]|] eqn:Hfind; [|done].
    destruct (Hlow i m eq_refl) as [Howner Hadmin].
    rewrite decide_False by done. rewrite bool_decide_eq_false_2; [done|].
    by intros [? _]. }
  unfold removeMember, updateMemberRole.
  destruct (list_find (λ m, FamilyMember.userId m = userId) (members (this d)))
    as [[i m]|]; [|by eauto].
  rewrite Hno. simpl. by eauto.
Qed.

Lemma only_owners_and_admins_manage_witness :
  (∃ message, removeMember 2000 "bob" "carol" (at_rest household)
              = (Rejected message, at_rest household))
  ∧ (∃ message, updateMemberRole 2000 "carol" "owner" "carol" (at_rest household)
                = (Rejected message, at_rest household)).
Proof.
  split.
  - apply (only_owners_and_admins_manage (at_rest household) "carol"
             ltac:(intros i m [= <- <-]; split; discriminate) 2000%Z "bob" "").
  - apply (only_owners_and_admins_manage (at_rest household) "carol"
             ltac:(intros i m [= <- <-]; split; discriminate) 2000%Z "carol" "owner").
Defined.

End GroupInvariantFacts.

(** ** Invitations *)

Module InvitationFacts.
Import FamilyGroup FamilyGroupFacts.

Local Abbreviation pending_for email :=
  (λ inv : Invitation.t, Invitation.email inv = email ∧ Invitation.status inv = "pending").

(** At most one pending invitation per e-mail address. *)
Definition one_pending_per_email (d : Doc) : Prop :=
  ∀ email, length (filter (pending_for email) (pendingInvitations (this d))) ≤ 1.

(** How one call can change the list of invitations. *)
Inductive invitations_step (l : list Invitation.t) : list Invitation.t → Prop :=
| inv_same : invitations_step l l
| inv_sent inv :
    list_find (pending_for (Invitation.email inv)) l = None →
    invitations_step l (l ++ [inv])
| inv_settled i inv s :
    s ≠ "pending" → invitations_step l (<[i := Invitation.set_status s inv]> l).

Lemma addMember_same_invitations now u r by_ d :
  pendingInvitations (this (snd (addMember now u r by_ d))) = pendingInvitations (this d).
Proof.
  unfold addMember. destruct (isFull _); [done|].
  by destruct (list_find _ (members (this d))) as [[??]|].
Qed.

(** An address in ASCII without capital letters. *)
Fixpoint plain_lower (s : string) : bool :=
  match s with
  | EmptyString => true
  | String c rest =>
      let n := Ascii.nat_of_ascii c in
      (bool_decide (n < 65) || bool_decide (90 < n < 128)) && plain_lower rest
  end.

(** Lower-casing leaves such an address as it is. *)
Lemma plain_lower_toLowerCase s : plain_lower s = true → Clipboard.toLowerCase s = s.
Proof.
  induction s as [|c rest IH]; [done|]. simpl.
  intros [Hc Hrest]%andb_prop. rewrite IH by done. f_equal.
  unfold Clipboard.lower_ascii. rewrite bool_decide_eq_false_2; [done|].
  apply orb_prop in Hc as [Hc|Hc]; apply bool_decide_eq_true in Hc; lia.
Qed.

(** The addresses that the call invites are of that kind. *)
Definition plain_call (c : Call) : Prop :=
  match c with
  | InviteUser _ email _ _ _ => plain_lower email = true
  | _ => True
  end.

Lemma call_invitations_step c d :
  plain_call c →
  invitations_step (pendingInvitations (this d))
    (pendingInvitations (this (snd (call c d)))).
Proof.
  intros Hplain.
  destruct c as [now u r by_|now u by_|now u r by_|now e r by_ msg|now e u|now e]; simpl.
  - rewrite addMember_same_invitations. constructor.
  - unfold removeMember.
    destruct (list_find _ (members (this d))) as [[i m]|]; [|constructor].
    destruct (negb _); constructor.
  - unfold updateMemberRole.
    destruct (list_find _ (members (this d))) as [[i m]|]; [|constructor].
    destruct (negb _); constructor.
  - unfold inviteUser. destruct (negb _); [constructor|].
    destruct (list_find (pending_for e) (pendingInvitations (this d)))
      as [[i inv]|] eqn:Hfind; [constructor|].
    simpl. simpl in Hplain. rewrite (plain_lower_toLowerCase e Hplain). by apply inv_sent.
  - unfold acceptInvitation.
    destruct (list_find (pending_for e) (pendingInvitations (this d)))
      as [[i inv]|]; [|constructor].
    destruct (bool_decide _); [by apply inv_settled|].
    pose proof (addMember_same_invitations now u (Invitation.role inv)
                  (Some (Invitation.invitedBy inv)) (mark i inv "accepted" d)) as Hsame.
    destruct (addMember _ _ _ _ _) as [[g|message] d']; simpl in *;
      rewrite Hsame; by apply inv_settled.
  - unfold declineInvitation.
    destruct (list_find (pending_for e) (pendingInvitations (this d)))
      as [[i inv]|]; [|constructor].
    by apply inv_settled.
Qed.

Lemma filter_insert_shrinks {A} (P : A → Prop) `{∀ x, Decision (P x)} (l : list A) i x :
  ¬ P x → length (filter P (<[i := x]> l)) ≤ length (filter P l).
Proof.
  intros Hx. revert i. induction l as [|y l IH]; intros i; [done|].
  destruct i as [|i].
  - change (<[0 := x]> (y :: l)) with (x :: l). rewrite !filter_cons, decide_False by done.
    destruct (decide (P y)); simpl; lia.
  - change (<[S i := x]> (y :: l)) with (y :: <[i := x]> l). rewrite !filter_cons.
    specialize (IH i). destruct (decide (P y)); simpl; lia.
Qed.

(** Whatever calls are made on a family group document, an e-mail address
    never has two pending invitations at a time, as long as the addresses
    invited are written in ASCII without capital letters.  (The stored
    address is lower-cased, the search for a pending one is not.) *)
Theorem calls_keep_one_pending_per_email calls d :
  Forall plain_call calls →
  one_pending_per_email d → one_pending_per_email (run calls d).
Proof.
  unfold run. intros Hplain. revert d.
  induction Hplain as [|c calls Hc _ IH]; intros d Hone; [done|].
  simpl. apply IH. intros email. specialize (Hone email).
  destruct (call_invitations_step c d Hc) as [|inv Hnone|i inv s Hs].
  - done.
  - rewrite filter_app, length_app, filter_cons, filter_nil.
    destruct (decide (pending_for email inv)) as [[Hemail _]|_]; simpl; [|lia].
    rewrite Hemail in Hnone.
    apply list_find_None in Hnone.
    assert (filter (pending_for email) (pendingInvitations (this d)) = []) as ->; [|done].
    clear Hone. induction Hnone as [|x l Hx _ IHl]; [done|].
    by rewrite filter_cons, decide_False.
  - etrans; [|exact Hone]. apply filter_insert_shrinks. simpl. by intros [_ ?].
Qed.

Lemma calls_keep_one_pending_per_email_witness :
  one_pending_per_email
    (run [InviteUser 2000 "dan@example.com" "guest" "bob" "again";
          DeclineInvitation 2100 "dan@example.com";
          InviteUser 2200 "dan@example.com" "member" "alice" ""]
       (at_rest household)).
Proof.
  apply (calls_keep_one_pending_per_email _ (at_rest household)).
  - repeat constructor.
  - intros email. simpl. rewrite filter_cons, filter_nil.
    destruct (decide _); simpl; lia.
Defined.

(** An invitation sent by [inviteUser], for a role of the invitations'
    enum and to an address that is not empty and is written in ASCII
    without capital letters, can be accepted under that address until seven
    days later, that moment included: the invitee, if not yet a member,
    joins with the role of the invitation and that role's default
    permissions, the invitation reads [accepted], and the document is
    saved. *)
Theorem invitation_can_be_accepted now later email role invitedBy message userId d :
  role ∈ ["member"; "guest"] → email ≠ "" → plain_lower email = true →
  canAcceptMembers (this d) = true →
  list_find (pending_for email) (pendingInvitations (this d)) = None →
  userId ∉ (FamilyMember.userId <$> members (this d)) →
  (later ≤ now + 7 * 24 * 60 * 60 * 1000)%Z →
  ∃ g1 g,
    inviteUser now email role invitedBy message d
    = (Resolved g1, {| this := g1; stored := g1 |})
    ∧ acceptInvitation later email userId {| this := g1; stored := g1 |}
      = (Resolved g, {| this := g; stored := g |})
    ∧ members g
      = members (this d)
        ++ [{| FamilyMember.userId := userId; FamilyMember.role := role;
               FamilyMember.joinedAt := later; FamilyMember.invitedBy := Some invitedBy;
               FamilyMember.permissions := getDefaultPermissions role |}]
    ∧ Invitation.status <$> last (pendingInvitations g) = Some "accepted".
Proof.
  intros _ _ Hplain Hroom Hnone Hnew Hintime.
  assert (isFull (this d) = false) as Hfull.
  { unfold canAcceptMembers in Hroom. apply andb_prop in Hroom as [Hroom _].
    by apply negb_true_iff. }
  assert (list_find (λ m, FamilyMember.userId m = userId) (members (this d)) = None)
    as Hstranger.
  { apply list_find_None, Forall_forall. intros m Hin Hu. apply Hnew.
    apply list_elem_of_fmap. by exists m. }
  unfold inviteUser.
  rewrite Hroom, Hnone, (plain_lower_toLowerCase email Hplain). simpl.
  eexists _, _. split; [reflexivity|].
  unfold acceptInvitation. simpl.
  rewrite (list_find_snoc_hit (pending_for email) _ _ Hnone) by done. simpl.
  rewrite bool_decide_eq_false_2 by (unfold invitation_ttl; lia).
  unfold addMember. simpl. unfold isFull in *. simpl. rewrite Hfull, Hstranger. simpl.
  split; [reflexivity|]. split; [reflexivity|].
  replace (length (pendingInvitations (this d)))
    with (length (pendingInvitations (this d)) + 0) by lia.
  rewrite insert_app_r. simpl. by rewrite last_snoc.
Qed.

Lemma invitation_can_be_accepted_witness :
  ∃ g1 g,
    inviteUser 2000 "eve@example.com" "guest" "bob" "welcome" (at_rest household)
    = (Resolved g1, {| this := g1; stored := g1 |})
    ∧ acceptInvitation 604802000 "eve@example.com" "eve" {| this := g1; stored := g1 |}
      = (Resolved g, {| this := g; stored := g |})
    ∧ members g
      = members (this (at_rest household))
        ++ [{| FamilyMember.userId := "eve"; FamilyMember.role := "guest";
               FamilyMember.joinedAt := 604802000;
               FamilyMember.invitedBy := Some "bob";
               FamilyMember.permissions := getDefaultPermissions "guest" |}]
    ∧ Invitation.status <$> last (pendingInvitations g) = Some "accepted".
Proof.
  apply (invitation_can_be_accepted 2000%Z 604802000%Z "eve@example.com" "guest" "bob"
           "welcome" "eve" (at_rest household)).
  - apply list_elem_of_further, list_elem_of_here.
  - discriminate.
  - reflexivity.
  - reflexivity.
  - reflexivity.
  - simpl. rewrite !elem_of_cons, elem_of_nil. intuition discriminate.
  - lia.
Defined.

(** Accepting a valid invitation into a group that has no room is rejected
    with [Family group is full]: nobody joins and nothing is stored; the
    document in memory, though, already reads the invitation as
    [accepted]. *)
Theorem full_group_refuses_acceptance now email userId d index inv :
  list_find (pending_for email) (pendingInvitations (this d)) = Some (index, inv) →
  (now ≤ Invitation.expiresAt inv)%Z →
  (maxMembers (this d) ≤ Z.of_nat (length (members (this d))))%Z →
  ∃ d',
    acceptInvitation now email userId d = (Rejected "Family group is full", d')
    ∧ stored d' = stored d
    ∧ members (this d') = members (this d)
    ∧ pendingInvitations (this d') !! index = Some (Invitation.set_status "accepted" inv).
Proof.
  intros Hfind Hintime Hfull. unfold acceptInvitation. rewrite Hfind.
  rewrite bool_decide_eq_false_2 by lia.
  unfold addMember, isFull. simpl. rewrite bool_decide_eq_true_2 by done.
  eexists. split; [reflexivity|]. split_and!; [done|done|]. simpl.
  apply list_lookup_insert_eq. apply list_find_Some in Hfind as (Hi & _).
  by eapply lookup_lt_Some.
Qed.

Definition crowded : t :=
  {| name := "Household"; allowInvites := true; maxMembers := 3; owner := "alice";
     members := members household; pendingInvitations := pendingInvitations household;
     memberCount := 3; lastActivity := None |}.

Lemma full_group_refuses_acceptance_witness :
  ∃ d',
    acceptInvitation 3000 "dan@example.com" "dan" (at_rest crowded)
    = (Rejected "Family group is full", d')
    ∧ stored d' = crowded
    ∧ members (this d') = members crowded
    ∧ Invitation.status <$> pendingInvitations (this d') !! 0 = Some "accepted".
Proof.
  destruct (full_group_refuses_acceptance 3000%Z "dan@example.com" "dan" (at_rest crowded) 0
              {| Invitation.email := "dan@example.com"; Invitation.invitedBy := "alice";
                 Invitation.invitedAt := 1000; Invitation.expiresAt := 5000;
                 Invitation.role := "member"; Invitation.message := "";
                 Invitation.status := "pending" |})
    as (d' & Hcall & Hstored & Hmembers & Hinv).
  - reflexivity.
  - simpl. lia.
  - simpl. lia.
  - exists d'. split_and!; [done|done|done|]. by rewrite Hinv.
Defined.

End InvitationFacts.

(** ** What the middleware lets through *)

Module GateFacts.
Import Auth.

(** [authenticateToken] calls [next()] only for a user of the collection
    whom a token in the header names, whose token [jwt.verify] accepted,
    who is active and whose product access list is not empty. *)
Theorem authenticateToken_lets_through jwt_verify authorization users user :
  authenticateToken jwt_verify authorization users = Next user →
  ∃ token,
    bearer authorization = Some token ∧ token ≠ ""
    ∧ jwt_verify token = Decoded (Some (User._id user))
    ∧ user ∈ users
    ∧ User.isActive user = true
    ∧ User.productAccess user ≠ [].
Proof.
  unfold authenticateToken, truthy.
  destruct (bearer authorization) as [token|]; [|done]. simpl.
  case_bool_decide as Htoken; [|done]. simpl.
  destruct (jwt_verify token) as [[id|]|name] eqn:Hverify; simpl; [|done|by repeat case_decide].
  unfold User.findById.
  destruct (list_find (λ u, User._id u = id) users) as [[i u]|] eqn:Hfind; [|done]. simpl.
  destruct (User.isActive u) eqn:Hactive; [|done]. simpl.
  case_bool_decide as Hempty; [done|]. intros [= <-].
  apply list_find_Some in Hfind as (Hi & Hid & _).
  exists token. split_and!; [done|done|by rewrite Hid|by eapply list_elem_of_lookup_2|done|].
  intros Hnil. apply Hempty. by rewrite Hnil.
Qed.

Lemma authenticateToken_lets_through_witness :
  ∃ token,
    bearer (Some "Bearer carol") = Some token ∧ token ≠ ""
    ∧ AuthFacts.decode_as_name token = Decoded (Some (User._id UserFacts.carol))
    ∧ UserFacts.carol ∈ [AuthFacts.erin; UserFacts.carol]
    ∧ User.isActive UserFacts.carol = true
    ∧ User.productAccess UserFacts.carol ≠ [].
Proof.
  apply (authenticateToken_lets_through AuthFacts.decode_as_name (Some "Bearer carol")
           [AuthFacts.erin; UserFacts.carol] UserFacts.carol).
  reflexivity.
Defined.

(** The role guards let a request through only when [authenticateToken]
    does and the user's role is [admin], for [authenticateAdmin], or one of
    [admin], [family], [friend], for [authenticateFamilyMember]; a request
    that [authenticateToken] answered gets that answer and no other. *)
Theorem role_guards_let_through jwt_verify authorization users :
  (∀ user, authenticateAdmin jwt_verify authorization users = Continue user →
           authenticateToken jwt_verify authorization users = Next user
           ∧ User.role user = "admin")
  ∧ (∀ user, authenticateFamilyMember jwt_verify authorization users = Continue user →
             authenticateToken jwt_verify authorization users = Next user
             ∧ User.role user ∈ ["admin"; "family"; "friend"])
  ∧ (∀ status error, authenticateToken jwt_verify authorization users = Respond status error →
       authenticateAdmin jwt_verify authorization users = Answered status error true
       ∧ authenticateFamilyMember jwt_verify authorization users
         = Answered status error true).
Proof.
  unfold authenticateAdmin, authenticateFamilyMember, guard.
  destruct (authenticateToken jwt_verify authorization users) as [u|status error].
  - split_and!.
    + intros user. case_bool_decide as Hrole; [|done]. intros [= <-].
      split; [done|]. by apply list_elem_of_singleton in Hrole.
    + intros user. case_bool_decide as Hrole; [|done]. by intros [= <-].
    + done.
  - split_and!; [done|done|]. by intros ?? [= <- <-].
Qed.

Definition root : User.t :=
  User.addProductAccess 10 (User.mk "root" "admin" true []) "P" "Shared board" "admin"
    None None.

Lemma role_guards_let_through_witness :
  authenticateToken AuthFacts.decode_as_name (Some "Bearer root") [UserFacts.carol; root]
  = Next root
  ∧ User.role root = "admin".
Proof.
  apply (proj1 (role_guards_let_through AuthFacts.decode_as_name (Some "Bearer root")
                  [UserFacts.carol; root]) root).
  reflexivity.
Defined.

Import ProductAccessMiddleware.

(** [validateProductAccess] calls [next()] exactly when the user holds an
    entry whose product id, or whose own id, is the route's [productId]
    parameter: whether that entry is active and what level it gives plays
    no part.  On a route that binds no such parameter it never calls
    [next()]. *)
Theorem validateProductAccess_lets_through entry_id productId userId users :
  (∀ entry, validateProductAccess entry_id productId userId users = Next entry →
     ∃ user, User.findById users userId = Some user
             ∧ entry ∈ User.productAccess user
             ∧ names entry_id productId entry)
  ∧ (∀ user entry,
       User.findById users userId = Some user →
       entry ∈ User.productAccess user → names entry_id productId entry →
       ∃ entry', validateProductAccess entry_id productId userId users = Next entry')
  ∧ (productId = None →
     ∃ status error,
       validateProductAccess entry_id productId userId users = Respond status error).
Proof.
  unfold validateProductAccess. split_and!.
  - intros entry. destruct (User.findById users userId) as [user|]; [|done].
    case_bool_decide; [done|].
    destruct (list_find (names entry_id productId) (User.productAccess user))
      as [[i e]|] eqn:Hfind; [|done].
    intros [= <-]. apply list_find_Some in Hfind as (Hi & Hnames & _).
    exists user. split_and!; [done| |done]. by eapply list_elem_of_lookup_2.
  - intros user entry -> Hin Hnames.
    rewrite bool_decide_eq_false_2.
    2:{ intros Hlen. destruct (User.productAccess user); [by apply elem_of_nil in Hin|done]. }
    destruct (list_find_elem_of (names entry_id productId) (User.productAccess user)
                entry Hin Hnames) as [[i e] ->].
    by eauto.
  - intros ->. destruct (User.findById users userId) as [user|]; [|by eauto].
    case_bool_decide; [by eauto|].
    destruct (list_find (names entry_id None) (User.productAccess user))
      as [[i e]|] eqn:Hfind; [|by eauto].
    apply list_find_Some in Hfind as (_ & [Hid|Hid] & _); discriminate.
Qed.

Lemma validateProductAccess_lets_through_witness :
  (∃ entry', validateProductAccess (λ _, "a1") (Some "P") "dave" [AuthFacts.dave]
             = Next entry')
  ∧ ∃ status error,
      validateProductAccess (λ _, "a1") None "dave" [AuthFacts.dave] = Respond status error.
Proof.
  split.
  - apply (proj1 (proj2 (validateProductAccess_lets_through (λ _, "a1") (Some "P") "dave"
                           [AuthFacts.dave]))
             AuthFacts.dave
             (ProductAccess.mk "P" "Shared board" "read" 10 (Some "alice") None false)).
    + reflexivity.
    + apply list_elem_of_here.
    + by right.
  - apply (proj2 (proj2 (validateProductAccess_lets_through (λ _, "a1") None "dave"
                           [AuthFacts.dave]))).
    reflexivity.
Defined.

End GateFacts.

(** ** The member routes of a product *)

Module MemberRouteFacts.
Import ProductRoutes.

Local Abbreviation is_admin := (λ m : Member.t, Member.accessLevel m = "admin").







End MemberRouteFacts.

(** ** Joining and leaving a product, as the user document sees it *)

Module MembershipFacts.
Import ProductRoutes.






End MembershipFacts.

(** ** The listing of the model and the share routes, on the examples *)

Module ExampleFacts.

Lemma findByProduct_visible_witness :
  ClipboardFacts.visible_to "bob" ClipboardFacts.shared_entry = true.
Proof.
  apply (ListingFacts.findByProduct_visible (λ _ _, true) "P" ListingFacts.bob_options
           [ClipboardFacts.shared_entry; ClipboardFacts.public_entry] "bob"
           ClipboardFacts.shared_entry).
  - reflexivity.
  - discriminate.
  - apply list_elem_of_In. vm_compute. auto.
Defined.

Lemma share_routes_keep_grants_unique_witness :
  ShareRoutesFacts.grants_are_unique
    (snd (ShareRoutes.post_share 2000 "e1" "bob" "read" "P" "alice" ShareRoutesFacts.shelf))
  ∧ ShareRoutesFacts.grants_are_unique
      (snd (ShareRoutes.delete_share "e1" "bob" "P" "alice" ShareRoutesFacts.shelf)).
Proof.
  assert (ShareRoutesFacts.grants_are_unique ShareRoutesFacts.shelf) as Hshelf.
  { repeat constructor. }
  split.
  - apply (proj1 (ShareRoutesFacts.share_routes_keep_grants_unique ShareRoutesFacts.shelf
                    Hshelf)).
  - apply (proj2 (proj2 (ShareRoutesFacts.share_routes_keep_grants_unique
                           ShareRoutesFacts.shelf Hshelf))).
Defined.

End ExampleFacts.

(** ** The share routes as registered *)

Module RegisteredFacts.

(** [POST /api/shares] and [PUT] and [DELETE /api/shares/:entryId/:userId],
    as they are registered, answer every request with 403 or 500 and leave
    both collections as they were: none of the three paths binds the
    [productId] that [validateProductAccess] reads, so the handlers never
    run. *)
Theorem share_routes_never_run entry_id db :
  (∀ now entryId userId accessLevel productId currentUserId,
     ∃ status error,
       Registered.post_share entry_id now entryId userId accessLevel productId currentUserId db
       = (Error status error, db)
       ∧ (status = 403 ∨ status = 500))
  ∧ (∀ now entryId userId accessLevel productId currentUserId,
       ∃ status error,
         Registered.put_share entry_id now entryId userId accessLevel productId currentUserId db
         = (Error status error, db)
         ∧ (status = 403 ∨ status = 500))
  ∧ (∀ entryId userId productId currentUserId,
       ∃ status error,
         Registered.delete_share entry_id entryId userId productId currentUserId db
         = (Error status error, db)
         ∧ (status = 403 ∨ status = 500)).
Proof.
  split_and!; intros; apply ListingFacts.unbound_route_is_refused.
Qed.

Example alice_cannot_share :
  Registered.post_share (λ _, "a1") 2000 "e1" "bob" "read" "P" "alice" ShareRoutesFacts.shelf
  = (Error 403 "Access denied to this product", ShareRoutesFacts.shelf).
Proof. reflexivity. Qed.

End RegisteredFacts.
